(** * Market-data dashboard: series buffers, trade matching, performance statistics

    A shallow embedding of the stateful core of the React front end:

    - [SymbolChart] (components/SymbolChart.jsx): the candle buffer, filled by
      [fetchCandles] and revised by the [candle_update] effect;
    - [AnalyticsLab] (pages/AnalyticsLab.jsx): the live z-score buffers, one
      per [symbol_timeframe] key;
    - [Backtester] (pages/Backtester.jsx): [calculateMetrics], which pairs
      entry and exit signals into trades and derives the statistics;
    - [SocketContext] (context/SocketContext.jsx): the effect that parses each
      websocket frame.

    JavaScript numbers are IEEE 754 binary64 values and are modelled by Rocq's
    primitive floats, whose operations are the same correctly rounded
    operations; candle and signal timestamps are integer seconds and are
    modelled in [Z]; array lengths are naturals.  React state updaters
    ([setCandles (prev => ...)]) are modelled as functions from the previous
    state to the next one, console output as a list of log entries.  A plain
    object used as a map is the finite map of its own properties; where the
    code reads it under a key taken from a message, the names it inherits
    from [Object.prototype] are modelled too. *)

From Stdlib Require Import Floats.
From stdpp Require Import gmap strings list sorting.

(** ** JavaScript array helpers *)

(** [arr.slice(start)] for an integer [start]: a negative [start] counts from
    the end and is clamped at the beginning of the array; [-0] is [0], which
    keeps the whole array. *)
Definition slice_from {A} (start : Z) (arr : list A) : list A :=
  let len := Z.of_nat (length arr) in
  let k := if (start <? 0)%Z then Z.max (len + start) 0 else Z.min start len in
  drop (Z.to_nat k) arr.

(** [s.toLowerCase()] on the ASCII letters. *)
Definition lower_ascii (c : Ascii.ascii) : Ascii.ascii :=
  let n := Ascii.nat_of_ascii c in
  if (65 <=? n)%nat && (n <=? 90)%nat then Ascii.ascii_of_nat (n + 32) else c.

Fixpoint toLowerCase (s : string) : string :=
  match s with
  | String.EmptyString => String.EmptyString
  | String.String c rest => String.String (lower_ascii c) (toLowerCase rest)
  end.

(** ** Console output *)

Inductive LogEntry :=
| WarnUnparsable (data : string)
    (* console.warn("SocketContext: Unable to parse websocket message", ...) *)
| LogUpdating (symbol timeframe : string) (timestamp : Z)
    (* `${symbol} ${activeTimeframe}: Updating with candle at ${timestamp}` *)
| LogFirstCandle (symbol timeframe : string)
| LogUpdatingExisting (symbol timeframe : string)
| LogNewCandle (symbol timeframe : string) (prev_count : nat)
| ErrorFetch (symbol : string).
    (* console.error(`Failed to fetch candles for ${symbol}`, err) *)

(** ** Series buffer (SymbolChart.jsx) *)

Module SeriesBuffer.

Record Candle := {
  timestamp : Z;
  open : float;
  high : float;
  low : float;
  close : float;
  volume : float
}.

(** [MAX_POINTS]: the per-timeframe capacity table. *)
Definition MAX_POINTS (tf : string) : option Z :=
  if decide (tf = "1s") then Some 120%Z
  else if decide (tf = "1m") then Some 60%Z
  else if decide (tf = "5m") then Some 72%Z
  else None.

(** [MAX_POINTS[activeTimeframe] ?? 120] *)
Definition maxPointsFor (activeTimeframe : string) : Z :=
  default 120%Z (MAX_POINTS activeTimeframe).

(** [.sort((a, b) => a.timestamp - b.timestamp)]: [Array.prototype.sort] is
    stable, so for this comparator its result is the one stable arrangement by
    ascending timestamp, which insertion from the right computes. *)
Fixpoint insert_candle (c : Candle) (sorted : list Candle) : list Candle :=
  match sorted with
  | [] => [c]
  | d :: rest =>
      if (timestamp c <=? timestamp d)%Z then c :: d :: rest
      else d :: insert_candle c rest
  end.

Fixpoint sort_candles (cs : list Candle) : list Candle :=
  match cs with
  | [] => []
  | c :: rest => insert_candle c (sort_candles rest)
  end.

(** The success path of [fetchCandles]:
    [[...(response.data?.candles ?? [])].sort(...).slice(-maxPoints)],
    stored by [setCandles]. *)
Definition load (maxPoints : Z) (response_candles : list Candle) : list Candle :=
  slice_from (- maxPoints) (sort_candles response_candles).

(** The updater passed to [setCandles] by the [candle_update] effect. *)
Definition applyUpdate (maxPoints : Z) (newCandle : Candle) (prev : list Candle)
  : list Candle :=
  if decide (length prev = 0) then [newCandle]
  else
    let lastTimestamp := timestamp <$> prev !! (length prev - 1) in
    if decide (lastTimestamp = Some (timestamp newCandle))
    then <[length prev - 1 := newCandle]> prev
    else slice_from (- (maxPoints - 1)) prev ++ [newCandle].

(** What the same updater writes to the console. *)
Definition applyUpdate_log (sym tf : string) (newCandle : Candle)
  (prev : list Candle) : list LogEntry :=
  if decide (length prev = 0) then [LogFirstCandle sym tf]
  else if decide (timestamp <$> prev !! (length prev - 1) = Some (timestamp newCandle))
  then [LogUpdatingExisting sym tf]
  else [LogNewCandle sym tf (length prev)].

End SeriesBuffer.

(** ** Parsed websocket messages and the parse effect (SocketContext.jsx) *)

Module Socket.

(** A parsed message, as the effects read it: each field may be absent
    ([undefined]).  Fields are typed as the effects use them; [timestamp] is
    the instant in milliseconds handed to [new Date(...)]. *)
Record Message := {
  type : option string;
  symbol : option string;
  timeframe : option string;
  timestamp : option Z;
  z_score : option float;
  candle : option SeriesBuffer.Candle
}.

Section Parse.

(** [JSON.parse], with [None] for a thrown [SyntaxError]. *)
Variable JSON_parse : string -> option Message.

(** The provider's state ([lastJsonMessage]) and the console. *)
Record State := {
  lastJsonMessage : option Message;
  console : list LogEntry
}.

(** The effect run on each new raw frame [lastMessage] ([None]: no frame
    yet). *)
Definition parse_effect (lastMessage : option string) (st : State) : State :=
  match lastMessage with
  | None => st
  | Some data =>
      match JSON_parse data with
      | Some parsed =>
          {| lastJsonMessage := Some parsed; console := console st |}
      | None =>
          {| lastJsonMessage := lastJsonMessage st;
             console := console st ++ [WarnUnparsable data] |}
      end
  end.

End Parse.

End Socket.

(** ** The chart component's effects (SymbolChart.jsx) *)

Module SymbolChart.
Import SeriesBuffer.

(** The outcome of the historical request: the response body's [candles]
    field (possibly absent), or a rejected request. *)
Inductive FetchOutcome :=
| FetchOk (response_candles : option (list Candle))
| FetchFailed.

(** [fetchCandles], from the completion of the request on: next [candles]
    state and console output. *)
Definition fetchCandles (sym activeTimeframe : string) (r : FetchOutcome)
  (prev : list Candle) : list Candle * list LogEntry :=
  match r with
  | FetchOk cs => (load (maxPointsFor activeTimeframe) (default [] cs), [])
  | FetchFailed => (prev, [ErrorFetch sym])
  end.

(** The [candle_update] effect of the chart for [sym] showing
    [activeTimeframe], run on a new [lastMessage]. *)
Definition candle_update_effect (sym activeTimeframe : string)
  (lastMessage : option Socket.Message) (prev : list Candle)
  : list Candle * list LogEntry :=
  match lastMessage with
  | None => (prev, [])
  | Some m =>
      if negb (bool_decide (Socket.type m = Some "candle_update")) then (prev, [])
      else if negb (bool_decide
                      (toLowerCase (default "" (Socket.symbol m)) = toLowerCase sym))
      then (prev, [])
      else if negb (bool_decide (Socket.timeframe m = Some activeTimeframe))
      then (prev, [])
      else
        match Socket.candle m with
        | None => (prev, [])
        | Some newCandle =>
            (applyUpdate (maxPointsFor activeTimeframe) newCandle prev,
             LogUpdating sym activeTimeframe (timestamp newCandle)
               :: applyUpdate_log sym activeTimeframe newCandle prev)
        end
  end.

End SymbolChart.

(** ** Live z-score buffers (AnalyticsLab.jsx) *)

Module AnalyticsLab.

(** [timestamp] is the [Date], as milliseconds since the epoch. *)
Record ScorePoint := {
  timestamp : Z;
  value : float
}.

(** [`${symbol}_${tf}`]; an absent timeframe prints as [undefined]. *)
Definition key_of (m : Socket.Message) : string :=
  toLowerCase (default "" (Socket.symbol m))
  +:+ "_" +:+ default "undefined" (Socket.timeframe m).

(** [{ timestamp: new Date(lastMessage.timestamp || Date.now()),
       value: Number(lastMessage.z_score ?? 0) }]; [0] is falsy. *)
Definition newPoint (now : Z) (m : Socket.Message) : ScorePoint :=
  {| timestamp :=
       match Socket.timestamp m with
       | Some t => if decide (t = 0%Z) then now else t
       | None => now
       end;
     value := default 0%float (Socket.z_score m) |}.

(** [liveZScores] is a plain object ([useState({})], then object literals):
    its own properties are the buffers, held in the map, and it inherits the
    properties of [Object.prototype].  These are their names: eleven
    functions and the accessor [__proto__], which reads as the prototype
    itself.  None of the values is falsy and none is iterable. *)
Definition Object_prototype_keys : list string :=
  ["constructor"; "hasOwnProperty"; "isPrototypeOf"; "propertyIsEnumerable";
   "toLocaleString"; "toString"; "valueOf"; "__proto__";
   "__defineGetter__"; "__defineSetter__"; "__lookupGetter__";
   "__lookupSetter__"].

(** What [prev[key]] reads: an own property, else an inherited one, else
    [undefined]. *)
Inductive Property :=
| Own (points : list ScorePoint)
| Inherited
| Undefined.

Definition get (prev : gmap string (list ScorePoint)) (key : string) : Property :=
  match prev !! key with
  | Some points => Own points
  | None =>
      if bool_decide (key ∈ Object_prototype_keys) then Inherited else Undefined
  end.

(** How the [setLiveZScores] updater ends: with the next state, or with the
    [TypeError] of spreading a value that is not iterable. *)
Inductive Updated :=
| NextState (liveZScores : gmap string (list ScorePoint))
| TypeErrorNotIterable.

(** The [live_zscore] effect: the [setLiveZScores] updater applied to the
    previous state, [now] being the reading of [Date.now()].  In
    [prev[key] || []] an own buffer and an inherited value are both truthy;
    [[...existing, newPoint]] then throws on the inherited value. *)
Definition live_zscore_effect (now : Z) (lastMessage : option Socket.Message)
  (prev : gmap string (list ScorePoint)) : Updated :=
  match lastMessage with
  | None => NextState prev
  | Some m =>
      if negb (bool_decide (Socket.type m = Some "live_zscore")) then NextState prev
      else
        let key := key_of m in
        match get prev key with
        | Own existing =>
            NextState (<[key := slice_from (-200) (existing ++ [newPoint now m])]> prev)
        | Undefined =>
            NextState (<[key := slice_from (-200) ([] ++ [newPoint now m])]> prev)
        | Inherited => TypeErrorNotIterable
        end
  end.

End AnalyticsLab.

(** ** The page state behind one socket *)

Module Dashboard.

Section Deliver.

Variable JSON_parse : string -> option Socket.Message.

(** One chart (for [chart_symbol], showing [activeTimeframe]) and the
    analytics page, fed by the same provider. *)
Record App := {
  socket : Socket.State;
  candles : list SeriesBuffer.Candle;
  liveZScores : gmap string (list AnalyticsLab.ScorePoint)
}.

(** How the delivery of a frame ends: with the next state, or with the
    error of a state updater, which React rethrows while rendering; neither
    the pages nor the application shell (App.jsx) catch render errors. *)
Inductive Delivery :=
| Delivered (app : App)
| RenderThrows.

(** Delivery of one raw frame.  The provider's effect runs first; the
    consumers' effects depend on the provider's [lastJsonMessage] and run
    again only when [setLastJsonMessage] stored a freshly parsed object. *)
Definition deliver (chart_symbol activeTimeframe : string) (now : Z)
  (data : string) (app : App) : Delivery :=
  let socket' := Socket.parse_effect JSON_parse (Some data) (socket app) in
  match JSON_parse data with
  | None =>
      Delivered
        {| socket := socket'; candles := candles app; liveZScores := liveZScores app |}
  | Some _ =>
      let lastMessage := Socket.lastJsonMessage socket' in
      let '(candles', logs) :=
        SymbolChart.candle_update_effect chart_symbol activeTimeframe
          lastMessage (candles app) in
      match AnalyticsLab.live_zscore_effect now lastMessage (liveZScores app) with
      | AnalyticsLab.NextState liveZScores' =>
          Delivered
            {| socket := {| Socket.lastJsonMessage := lastMessage;
                            Socket.console := Socket.console socket' ++ logs |};
               candles := candles';
               liveZScores := liveZScores' |}
      | AnalyticsLab.TypeErrorNotIterable => RenderThrows
      end
  end.

End Deliver.

End Dashboard.

(** ** Trade matching and performance statistics (Backtester.jsx) *)

Module Backtester.

Local Open Scope float_scope.

Record Signal := {
  type : string;
  timestamp : Z;
  price : float
}.

Record Trade := {
  entry : Signal;
  exit : option Signal
}.

Definition is_null {A} (o : option A) : bool :=
  match o with None => true | Some _ => false end.

(** The body of [signalData.forEach] on the loop state
    [(trades, currentTrade)]. *)
Definition match_step (st : list Trade * option Trade) (signal : Signal)
  : list Trade * option Trade :=
  let '(trades, currentTrade) := st in
  if bool_decide (type signal = "entry") && is_null currentTrade then
    (trades, Some {| entry := signal; exit := None |})
  else
    match currentTrade with
    | Some open_trade =>
        if bool_decide (type signal = "exit") then
          (trades ++ [{| entry := entry open_trade; exit := Some signal |}], None)
        else st
    | None => st
    end.

(** [trades] once the loop is over; a still open [currentTrade] is dropped. *)
Definition matchTrades (signalData : list Signal) : list Trade :=
  (fold_left match_step signalData ([], None)).1.

(** [((exitPrice - entryPrice) / entryPrice) * 100]; reading [.price] of a
    null exit throws, which is [None] here. *)
Definition tradePnL_of (trade : Trade) : option float :=
  match exit trade with
  | Some exit_signal =>
      let entryPrice := price (entry trade) in
      let exitPrice := price exit_signal in
      Some (((exitPrice - entryPrice) / entryPrice) * 100)
  | None => None
  end.

(** [xs.reduce((sum, pnl) => sum + pnl, 0)] *)
Definition sum (xs : list float) : float :=
  fold_left (fun sum pnl => sum + pnl) xs 0.

(** An array length as a number (exact below 2^53, far above any array). *)
Definition of_length (n : nat) : float :=
  PrimFloat.of_uint63 (Uint63.of_Z (Z.of_nat n)).

(** The body of the drawdown loop on [(peak, maxDrawdown, cumulative)]. *)
Definition drawdown_step (st : float * float * float) (pnl : float)
  : float * float * float :=
  let '(peak, maxDrawdown, cumulative) := st in
  let cumulative := cumulative + pnl in
  let peak := if peak <? cumulative then cumulative else peak in
  let drawdown := peak - cumulative in
  let maxDrawdown := if maxDrawdown <? drawdown then drawdown else maxDrawdown in
  (peak, maxDrawdown, cumulative).

Definition maxDrawdown_of (tradePnL : list float) : float :=
  (fold_left drawdown_step tradePnL (neg_infinity, 0, 0)).1.2.

(** [Math.pow(d, 2)], taken as the correctly rounded square. *)
Definition pow2 (d : float) : float := d * d.

Definition avgReturn_of (tradePnL : list float) : float :=
  sum tradePnL / of_length (length tradePnL).

Definition variance_of (tradePnL : list float) : float :=
  let avgReturn := avgReturn_of tradePnL in
  fold_left (fun sum pnl => sum + pow2 (pnl - avgReturn)) tradePnL 0
  / of_length (length tradePnL).

Definition stdDev_of (tradePnL : list float) : float :=
  sqrt (variance_of tradePnL).

Definition sharpeRatio_of (tradePnL : list float) : float :=
  let avgReturn := avgReturn_of tradePnL in
  let stdDev := stdDev_of tradePnL in
  if 0 <? stdDev then (avgReturn / stdDev) * sqrt 252 else 0.

Record PerformanceStats := {
  totalTrades : nat;
  winningTrades : nat;
  losingTrades : nat;
  winRate : float;
  totalProfitLoss : float;
  avgProfit : float;
  avgLoss : float;
  maxDrawdown : float;
  sharpeRatio : float
}.

Definition zero_stats : PerformanceStats :=
  {| totalTrades := 0; winningTrades := 0; losingTrades := 0; winRate := 0;
     totalProfitLoss := 0; avgProfit := 0; avgLoss := 0; maxDrawdown := 0;
     sharpeRatio := 0 |}.

(** How a call of [calculateMetrics] ends. *)
Inductive Outcome :=
| ReturnNull
| Return (stats : PerformanceStats)
| ThrowTypeError.

(** The statistics block, from the per-trade returns on. *)
Definition stats_of (tradePnL : list float) : PerformanceStats :=
  let winning := List.filter (fun pnl => 0 <? pnl) tradePnL in
  let losing := List.filter (fun pnl => pnl <? 0) tradePnL in
  let n := length tradePnL in
  {| totalTrades := n;
     winningTrades := length winning;
     losingTrades := length losing;
     winRate :=
       if (0 <? n)%nat then (of_length (length winning) / of_length n) * 100 else 0;
     totalProfitLoss := sum tradePnL;
     avgProfit :=
       if (0 <? length winning)%nat then sum winning / of_length (length winning) else 0;
     avgLoss :=
       if (0 <? length losing)%nat then sum losing / of_length (length losing) else 0;
     maxDrawdown := maxDrawdown_of tradePnL;
     sharpeRatio := sharpeRatio_of tradePnL |}.

Definition calculateMetrics (priceData : list SeriesBuffer.Candle)
  (signalData : list Signal) : Outcome :=
  if decide (length signalData = 0%nat) then ReturnNull
  else
    let trades := matchTrades signalData in
    if decide (length trades = 0%nat) then Return zero_stats
    else
      match mapM tradePnL_of trades with
      | Some tradePnL => Return (stats_of tradePnL)
      | None => ThrowTypeError
      end.

End Backtester.

(** * Further functions of the same components *)

(** ** The chart's life: timeframe tabs, requests in flight, messages
       (SymbolChart.jsx) *)

Module ChartLifecycle.
Import SeriesBuffer.

(** One run of the fetch effect: the timeframe it asked for, its closure's
    [ignore] flag (set by the effect's cleanup) and whether its request has
    completed. *)
Record Request := {
  req_timeframe : string;
  ignore : bool;
  settled : bool
}.

(** The component's state, with the provider's [lastMessage] it last
    rendered with, the runs of the fetch effect (oldest first) and the
    console. *)
Record Chart := {
  activeTimeframe : string;
  candles : list Candle;
  loading : bool;
  error : option string;
  lastMessage : option Socket.Message;
  requests : list Request;
  console : list LogEntry
}.

Inductive Event :=
| SetActiveTimeframe (tf : string)
    (* a click on a timeframe tab *)
| Settle (n : nat) (r : SymbolChart.FetchOutcome) (detail : option string)
    (* the request of the n-th run of the fetch effect completes;
       [detail] is [err?.response?.data?.detail] *)
| Receive (m : Socket.Message).
    (* the provider publishes a new [lastMessage] *)

(** [err?.response?.data?.detail || "Unable to load historical data"] *)
Definition error_message (detail : option string) : string :=
  match detail with
  | Some d => if decide (d = "") then "Unable to load historical data" else d
  | None => "Unable to load historical data"
  end.

(** The cleanup of the latest run of the fetch effect: [ignore = true]. *)
Definition cleanup (rs : list Request) : list Request :=
  alter (fun r => {| req_timeframe := req_timeframe r; ignore := true;
                     settled := settled r |}) (length rs - 1) rs.

Definition mark_settled (n : nat) (rs : list Request) : list Request :=
  alter (fun r => {| req_timeframe := req_timeframe r; ignore := ignore r;
                     settled := true |}) n rs.

(** The state after the first render's effects, in the order of their
    definition: the fetch effect ([setLoading(true)], [setError(null)], the
    request), then the [candle_update] effect on the provider's current
    [lastMessage]. *)
Definition mount (sym : string) (lastMessage0 : option Socket.Message) : Chart :=
  let effect := SymbolChart.candle_update_effect sym "1m" lastMessage0 [] in
  {| activeTimeframe := "1m";
     candles := effect.1;
     loading := true;
     error := None;
     lastMessage := lastMessage0;
     requests := [{| req_timeframe := "1m"; ignore := false; settled := false |}];
     console := effect.2 |}.

Definition step (sym : string) (st : Chart) (ev : Event) : Chart :=
  match ev with
  | SetActiveTimeframe tf =>
      (* the same value: no render, no effect *)
      if decide (tf = activeTimeframe st) then st
      else
        (* both effects depend on [activeTimeframe]: the fetch effect is
           cleaned up and run again, then the [candle_update] effect runs
           again on the unchanged [lastMessage] *)
        let effect :=
          SymbolChart.candle_update_effect sym tf (lastMessage st) (candles st) in
        {| activeTimeframe := tf;
           candles := effect.1;
           loading := true;
           error := None;
           lastMessage := lastMessage st;
           requests := cleanup (requests st)
                       ++ [{| req_timeframe := tf; ignore := false; settled := false |}];
           console := console st ++ effect.2 |}
  | Settle n r detail =>
      match requests st !! n with
      | None => st
      | Some req =>
          if settled req then st  (* a promise settles once *)
          else if ignore req then
            {| activeTimeframe := activeTimeframe st; candles := candles st;
               loading := loading st; error := error st;
               lastMessage := lastMessage st;
               requests := mark_settled n (requests st);
               console := console st |}
          else
            let done := SymbolChart.fetchCandles sym (req_timeframe req) r (candles st) in
            {| activeTimeframe := activeTimeframe st;
               candles := done.1;
               loading := false;
               error := match r with
                        | SymbolChart.FetchOk _ => error st
                        | SymbolChart.FetchFailed => Some (error_message detail)
                        end;
               lastMessage := lastMessage st;
               requests := mark_settled n (requests st);
               console := console st ++ done.2 |}
      end
  | Receive m =>
      let effect :=
        SymbolChart.candle_update_effect sym (activeTimeframe st) (Some m)
          (candles st) in
      {| activeTimeframe := activeTimeframe st;
         candles := effect.1;
         loading := loading st;
         error := error st;
         lastMessage := Some m;
         requests := requests st;
         console := console st ++ effect.2 |}
  end.

Definition run (sym : string) (st : Chart) (evs : list Event) : Chart :=
  fold_left (step sym) evs st.

End ChartLifecycle.

(** ** The z-score chart (AnalyticsLab.jsx, [updateCharts]) *)

Module AnalyticsCharts.
Import AnalyticsLab.

Definition SYMBOLS : list string := ["btcusdt"; "ethusdt"; "bnbusdt"].
Definition TIMEFRAMES : list string := ["1s"; "1m"; "5m"].

Definition upper_ascii (c : Ascii.ascii) : Ascii.ascii :=
  let n := Ascii.nat_of_ascii c in
  if (97 <=? n)%nat && (n <=? 122)%nat then Ascii.ascii_of_nat (n - 32) else c.

(** [s.toUpperCase()] on the ASCII letters. *)
Fixpoint toUpperCase (s : string) : string :=
  match s with
  | String.EmptyString => String.EmptyString
  | String.String c rest => String.String (upper_ascii c) (toUpperCase rest)
  end.

Fixpoint strip_prefix (pat s : string) : option string :=
  match pat with
  | String.EmptyString => Some s
  | String.String p pat' =>
      match s with
      | String.EmptyString => None
      | String.String c s' =>
          if decide (p = c) then strip_prefix pat' s' else None
      end
  end.

(** [s.replace(pat, rep)] for a string pattern: the first occurrence only. *)
Fixpoint replace_first (pat rep s : string) : string :=
  match strip_prefix pat s with
  | Some rest => rep +:+ rest
  | None =>
      match s with
      | String.EmptyString => String.EmptyString
      | String.String c s' => String.String c (replace_first pat rep s')
      end
  end.

(** The data of a Plotly trace; the constant styling fields are left out. *)
Record Trace := {
  x : list Z;
  y : list float;
  name : string
}.

Definition symbol_trace (tf : string) (liveZScores : gmap string (list ScorePoint))
  (symbol : string) : Trace :=
  let key := symbol +:+ "_" +:+ tf in
  let zScores := default [] (liveZScores !! key) in
  {| x := timestamp <$> zScores;
     y := value <$> zScores;
     name := toUpperCase (replace_first "usdt" "" symbol) |}.

(** [{ x: [xRange[0], xRange[xRange.length - 1]], y: [level, level], ... }];
    both ends exist where the code builds it. *)
Definition threshold_trace (xRange : list Z) (level : float) (label : string)
  : Trace :=
  {| x := match head xRange, last xRange with
          | Some first, Some final => [first; final]
          | _, _ => []
          end;
     y := [level; level];
     name := label |}.

(** The traces handed to [Plotly.react] for the z-score chart of [tf]. *)
Definition zScoreTraces (tf : string) (liveZScores : gmap string (list ScorePoint))
  : list Trace :=
  let traces := symbol_trace tf liveZScores <$> SYMBOLS in
  match traces !! 0 with
  | Some first =>
      if (0 <? length (x first))%nat
      then traces ++ [threshold_trace (x first) 2%float "+2σ";
                      threshold_trace (x first) (-2)%float "-2σ"]
      else traces
  | None => traces
  end.

End AnalyticsCharts.

(** ** The periodic price fetch and the price chart (AnalyticsLab.jsx,
       [fetchAllData] and [updateCharts]) *)

Module AnalyticsFetch.
Import SeriesBuffer AnalyticsCharts.

(** How one price request ends: a body with its [candles] field when
    present ([res.data.candles || []]), or a rejection caught into [[]]. *)
Inductive PriceResponse :=
| PriceOk (candles : option (list Candle))
| PriceFailed.

Definition price_data_of (r : PriceResponse) : list Candle :=
  match r with
  | PriceOk candles => default [] candles
  | PriceFailed => []
  end.

(** The requests in the order they are pushed: timeframes outside, symbols
    inside. *)
Definition price_requests : list (string * string) :=
  tf ← TIMEFRAMES; symbol ← SYMBOLS; [(symbol, tf)].

(** [newPrices], filled result by result; it replaces the [priceData] state
    whole. *)
Definition newPrices (respond : string -> string -> PriceResponse)
  : gmap string (list Candle) :=
  fold_left
    (fun acc request =>
       <[request.1 +:+ "_" +:+ request.2
         := price_data_of (respond request.1 request.2)]> acc)
    price_requests ∅.

(** One element of [priceTraces] for [tf]; [x] holds
    [new Date(c.timestamp)]. *)
Definition price_trace (tf : string) (priceData : gmap string (list Candle))
  (symbol : string) : Trace :=
  let key := symbol +:+ "_" +:+ tf in
  let candles := default [] (priceData !! key) in
  {| x := timestamp <$> candles;
     y := close <$> candles;
     name := toUpperCase (replace_first "usdt" "" symbol) |}.

Definition priceTraces (tf : string) (priceData : gmap string (list Candle))
  : list Trace :=
  price_trace tf priceData <$> SYMBOLS.

(** The price chart of [tf] in [updateCharts], its element being mounted:
    the traces handed to [Plotly.react], or [None] when the guard
    [priceTraces.length > 0 && priceTraces[0].x.length > 0] fails, in which
    case [Plotly.react] is not called and the chart keeps what it showed. *)
Definition price_chart_update (tf : string) (priceData : gmap string (list Candle))
  : option (list Trace) :=
  let traces := priceTraces tf priceData in
  match traces !! 0 with
  | Some first => if (0 <? length (x first))%nat then Some traces else None
  | None => None
  end.

End AnalyticsFetch.

(** ** The backtest page around [calculateMetrics] (Backtester.jsx) *)

Module BacktestPage.
Import Backtester.

Inductive Toast :=
| ToastSuccess (found : nat)
    (* `Backtest complete! Found ${sigs.length} signals.` *)
| ToastNoSignals
    (* "No signals generated. Try adjusting parameters." *)
| ToastFailed.
    (* "Backtest failed" *)

Record Page := {
  priceSeries : list SeriesBuffer.Candle;
  signals : list Signal;
  metrics : option PerformanceStats;
  loading : bool;
  error : option string;
  toasts : list Toast;
  console : list string
}.

(** What [Promise.all] of the two requests gives: both bodies, with their
    [candles] and [signals] fields when present, or a rejection. *)
Inductive Responses :=
| BothOk (candles : option (list SeriesBuffer.Candle)) (sigs : option (list Signal))
| Rejected.

(** The [catch] block. *)
Definition failed (st : Page) : Page :=
  {| priceSeries := []; signals := []; metrics := None; loading := false;
     error := Some "Unable to run backtest with current parameters";
     toasts := toasts st ++ [ToastFailed];
     console := console st ++ ["Backtest run failed"] |}.

(** [runBacktest], from [setLoading(true)] to the end of [finally]. *)
Definition runBacktest (r : Responses) (st : Page) : Page :=
  match r with
  | Rejected => failed st
  | BothOk response_candles response_signals =>
      let candles := default [] response_candles in
      let sigs := default [] response_signals in
      match calculateMetrics candles sigs with
      | ThrowTypeError => failed st
      | outcome =>
          {| priceSeries := candles;
             signals := sigs;
             metrics := match outcome with Return stats => Some stats | _ => None end;
             loading := false;
             error := None;
             toasts := toasts st
                       ++ [if (0 <? length sigs)%nat then ToastSuccess (length sigs)
                           else ToastNoSignals];
             console := console st |}
      end
  end.

(** [metrics && metrics.totalTrades > 0]: whether the metrics panel is
    rendered. *)
Definition panel_visible (st : Page) : bool :=
  match metrics st with
  | Some stats => (0 <? totalTrades stats)%nat
  | None => false
  end.

(** [entrySignals] and [exitSignals] inside [plotData]. *)
Definition entrySignals (sigs : list Signal) : list Signal :=
  List.filter (fun signal => bool_decide (type signal = "entry")) sigs.

Definition exitSignals (sigs : list Signal) : list Signal :=
  List.filter (fun signal => bool_decide (type signal = "exit")) sigs.

(** [plotData] for the form's symbol: nothing without candles, else the
    price line and the entry and exit markers; [x] holds
    [new Date(timestamp * 1000)]. *)
Definition plotData (form_symbol : string)
  (priceSeries : list SeriesBuffer.Candle) (sigs : list Signal)
  : list AnalyticsCharts.Trace :=
  if decide (length priceSeries = 0%nat) then []
  else
    let instant := fun seconds : Z => (seconds * 1000)%Z in
    [ {| AnalyticsCharts.x := instant ∘ SeriesBuffer.timestamp <$> priceSeries;
         AnalyticsCharts.y := SeriesBuffer.close <$> priceSeries;
         AnalyticsCharts.name := AnalyticsCharts.toUpperCase form_symbol +:+ " price" |};
      {| AnalyticsCharts.x := instant ∘ timestamp <$> entrySignals sigs;
         AnalyticsCharts.y := price <$> entrySignals sigs;
         AnalyticsCharts.name := "Entry" |};
      {| AnalyticsCharts.x := instant ∘ timestamp <$> exitSignals sigs;
         AnalyticsCharts.y := price <$> exitSignals sigs;
         AnalyticsCharts.name := "Exit" |} ].

End BacktestPage.

(** * Vocabulary of the statements

    Runs of buffer operations, orderings, the positions of matched signals,
    the statistics in the words of the specification, and sample inputs. *)

Module BufferSpec.
Import SeriesBuffer.

(** The two operations on one buffer, and the buffers a sequence of them
    goes through. *)
Inductive Op :=
| Load (initial : list Candle)
| ApplyUpdate (c : Candle).

Definition step (capacity : Z) (buf : list Candle) (o : Op) : list Candle :=
  match o with
  | Load initial => load capacity initial
  | ApplyUpdate c => applyUpdate capacity c buf
  end.

(** The buffer after each operation, in order. *)
Fixpoint trace (capacity : Z) (buf : list Candle) (ops : list Op)
  : list (list Candle) :=
  match ops with
  | [] => []
  | o :: rest => step capacity buf o :: trace capacity (step capacity buf o) rest
  end.

Definition timestamps (buf : list Candle) : list Z := timestamp <$> buf.

(** Each timestamp is smaller than the next one. *)
Definition strictly_increasing (buf : list Candle) : Prop :=
  Sorted Z.lt (timestamps buf).

Definition nondecreasing (buf : list Candle) : Prop :=
  Sorted Z.le (timestamps buf).

(** An operation is in order for a buffer when a snapshot has no two candles
    with the same timestamp and an update is not older than the buffer's last
    candle. *)
Definition in_order (buf : list Candle) (o : Op) : Prop :=
  match o with
  | Load initial => NoDup (timestamps initial)
  | ApplyUpdate c => forall l, last buf = Some l -> (timestamp l <= timestamp c)%Z
  end.

Fixpoint all_in_order (capacity : Z) (buf : list Candle) (ops : list Op) : Prop :=
  match ops with
  | [] => True
  | o :: rest => in_order buf o /\ all_in_order capacity (step capacity buf o) rest
  end.

Definition candle_at (t : Z) : Candle :=
  {| timestamp := t; open := 0; high := 0; low := 0; close := 0; volume := 0 |}.

(** The contract under test: strictly increasing timestamps, and no more
    candles than the capacity. *)
Definition within_contract (capacity : Z) (buf : list Candle) : Prop :=
  strictly_increasing buf /\ (Z.of_nat (length buf) <= capacity)%Z.

End BufferSpec.

Module MatcherSpec.
Import Backtester.

(** The positions, in the input, of the entry and the exit of each trade,
    trade after trade. *)
Fixpoint flat_indices (ps : list (nat * nat)) : list nat :=
  match ps with
  | [] => []
  | p :: rest => p.1 :: p.2 :: flat_indices rest
  end.

(** Trade [t] was opened by the entry signal at position [p.1] and closed by
    the exit signal at position [p.2]. *)
Definition closed_at (signalData : list Signal) (t : Trade) (p : nat * nat) : Prop :=
  exists e x,
    signalData !! p.1 = Some e /\ signalData !! p.2 = Some x /\
    type e = "entry" /\ type x = "exit" /\
    t = {| entry := e; exit := Some x |}.

(** What holds of the loop state once the signals [seen] are processed. *)
Definition matcher_inv (seen : list Signal) (st : list Trade * option Trade) : Prop :=
  exists ps,
    Forall2 (closed_at seen) st.1 ps /\
    match st.2 with
    | None => StronglySorted lt (flat_indices ps)
    | Some open_trade =>
        exists i,
          seen !! i = Some (entry open_trade) /\
          type (entry open_trade) = "entry" /\
          exit open_trade = None /\
          StronglySorted lt (flat_indices ps ++ [i])
    end.

Definition signal (ty : string) (t : Z) (p : float) : Signal :=
  {| type := ty; timestamp := t; price := p |}.

(** Entry at 100, exit at 110, entry at 90, exit at 80. *)
Definition two_round_trips : list Signal :=
  [signal "entry" 1 100; signal "exit" 2 110;
   signal "entry" 3 90; signal "exit" 4 80].

(** Four round trips entered at 100 and left at 110, 105, 80 and 103. *)
Definition drawdown_signals : list Signal :=
  [signal "entry" 1 100; signal "exit" 2 110;
   signal "entry" 3 100; signal "exit" 4 105;
   signal "entry" 5 100; signal "exit" 6 80;
   signal "entry" 7 100; signal "exit" 8 103].

(** Two round trips entered at 100 and left at 110. *)
Definition twin_round_trips : list Signal :=
  [signal "entry" 1 100; signal "exit" 2 110;
   signal "entry" 3 100; signal "exit" 4 110].

(** Five round trips entered at 100 and left at 150, 125, 50, 75 and 100:
    the returns are 50, 25, -50, -25 and 0. *)
Definition five_round_trips : list Signal :=
  [signal "entry" 1 100; signal "exit" 2 150;
   signal "entry" 3 100; signal "exit" 4 125;
   signal "entry" 5 100; signal "exit" 6 50;
   signal "entry" 7 100; signal "exit" 8 75;
   signal "entry" 9 100; signal "exit" 10 100].

(** Three round trips entered at 1000 and left at 1001. *)
Definition equal_returns : list Signal :=
  [signal "entry" 1 1000; signal "exit" 2 1001;
   signal "entry" 3 1000; signal "exit" 4 1001;
   signal "entry" 5 1000; signal "exit" 6 1001].

End MatcherSpec.

Module PerformanceSpec.
Import Backtester.
Local Open Scope float_scope.

(** The percentage return of one round trip. *)
Definition trade_return (entryPrice exitPrice : float) : float :=
  (exitPrice - entryPrice) / entryPrice * 100.

(** [pnl] lists the returns of the (closed) [trades], in order. *)
Definition returns_of (trades : list Trade) (pnl : list float) : Prop :=
  Forall2
    (fun t p => exists x, exit t = Some x /\ p = trade_return (price (entry t)) (price x))
    trades pnl.

Definition positives (pnl : list float) : list float :=
  List.filter (fun p => 0 <? p) pnl.

Definition negatives (pnl : list float) : list float :=
  List.filter (fun p => p <? 0) pnl.

Definition zeros (pnl : list float) : list float :=
  List.filter (fun p => p =? 0) pnl.

(** The values added one after the other, from the first on, to 0. *)
Fixpoint total_from (acc : float) (xs : list float) : float :=
  match xs with
  | [] => acc
  | x :: rest => total_from (acc + x) rest
  end.

Definition total (xs : list float) : float := total_from 0 xs.

(** The total over the number of values. *)
Definition mean (xs : list float) : float := total xs / of_length (length xs).

Definition mean_or_zero (xs : list float) : float :=
  match xs with [] => 0 | _ => mean xs end.

(** Mean squared deviation from the mean, the divisor being the number of
    values. *)
Definition population_variance (xs : list float) : float :=
  total (map (fun x => (x - mean xs) * (x - mean xs)) xs) / of_length (length xs).

(** The larger of two numbers, the first when neither is larger. *)
Definition fmax (a b : float) : float := if a <? b then b else a.

(** The successive values of an accumulator. *)
Fixpoint running (f : float -> float -> float) (acc : float) (xs : list float)
  : list float :=
  match xs with
  | [] => []
  | x :: rest => f acc x :: running f (f acc x) rest
  end.

Definition cumulative_curve (pnl : list float) : list float :=
  running (fun c p => c + p) 0 pnl.

Definition peak_curve (pnl : list float) : list float :=
  running fmax neg_infinity (cumulative_curve pnl).

Definition drawdown_curve (pnl : list float) : list float :=
  zip_with (fun peak c => peak - c) (peak_curve pnl) (cumulative_curve pnl).

End PerformanceSpec.

Module LiveScoreSpec.
Import AnalyticsLab.

(** A point at the instant 1000 with score 1, and a message for the same
    key and the same instant. *)
Definition first_point : ScorePoint := {| timestamp := 1000; value := 1 |}.

Definition same_instant : Socket.Message :=
  {| Socket.type := Some "live_zscore"; Socket.symbol := Some "BTCUSDT";
     Socket.timeframe := Some "1m"; Socket.timestamp := Some 1000%Z;
     Socket.z_score := Some 2%float; Socket.candle := None |}.

(** A [live_zscore] message with nothing but its type and key. *)
Definition bare_zscore : Socket.Message :=
  {| Socket.type := Some "live_zscore"; Socket.symbol := Some "BTCUSDT";
     Socket.timeframe := Some "1m"; Socket.timestamp := None;
     Socket.z_score := None; Socket.candle := None |}.

(** A [live_zscore] message without symbol whose timeframe is [_proto__]:
    its key is [__proto__]. *)
Definition proto_zscore : Socket.Message :=
  {| Socket.type := Some "live_zscore"; Socket.symbol := None;
     Socket.timeframe := Some "_proto__"; Socket.timestamp := Some 1000%Z;
     Socket.z_score := Some 1%float; Socket.candle := None |}.

End LiveScoreSpec.

Module LifecycleSpec.
Import SeriesBuffer ChartLifecycle.

(** The latest run of the fetch effect is the only one not ignored, it asked
    for the timeframe on display, and the loading flag is up exactly while
    its request is outstanding. *)
Definition one_live_request (st : Chart) : Prop :=
  exists earlier live,
    requests st = earlier ++ [live]
    /\ Forall (fun r => ignore r = true) earlier
    /\ ignore live = false
    /\ req_timeframe live = activeTimeframe st
    /\ loading st = negb (settled live).

(** With no request outstanding and no error shown, the buffer is within
    the capacity of the timeframe on display. *)
Definition idle_within_capacity (st : Chart) : Prop :=
  loading st = false -> error st = None ->
  (Z.of_nat (length (candles st)) <= maxPointsFor (activeTimeframe st))%Z.

(** A [candle_update] for BTCUSDT on the five-minute timeframe. *)
Definition five_minute_update : Socket.Message :=
  {| Socket.type := Some "candle_update"; Socket.symbol := Some "btcusdt";
     Socket.timeframe := Some "5m"; Socket.timestamp := None;
     Socket.z_score := None; Socket.candle := Some (BufferSpec.candle_at 300) |}.

(** A [candle_update] for BTCUSDT on the one-minute timeframe. *)
Definition one_minute_update : Socket.Message :=
  {| Socket.type := Some "candle_update"; Socket.symbol := Some "btcusdt";
     Socket.timeframe := Some "1m"; Socket.timestamp := None;
     Socket.z_score := None; Socket.candle := Some (BufferSpec.candle_at 180) |}.

End LifecycleSpec.

Module SocketSpec.

(** The provider's effect over successive raw frames. *)
Definition parse_run (JSON_parse : string -> option Socket.Message)
  (frames : list string) (st : Socket.State) : Socket.State :=
  fold_left (fun st data => Socket.parse_effect JSON_parse (Some data) st) frames st.

(** A parser that accepts the one frame ["ok"]. *)
Definition only_ok (data : string) : option Socket.Message :=
  if decide (data = "ok") then Some LiveScoreSpec.bare_zscore else None.

End SocketSpec.

Module LiveRunSpec.
Import AnalyticsLab.

(** The [live_zscore] effect on a mounted page; once an updater has thrown,
    the page is gone and later messages find nothing to update. *)
Definition live_step (st : Updated) (ev : Z * Socket.Message) : Updated :=
  match st with
  | NextState liveZScores => live_zscore_effect ev.1 (Some ev.2) liveZScores
  | TypeErrorNotIterable => TypeErrorNotIterable
  end.

(** The effect over successive messages, each with the reading of
    [Date.now()] at its arrival. *)
Definition run_live (events : list (Z * Socket.Message))
  (prev : gmap string (list ScorePoint)) : Updated :=
  fold_left live_step events (NextState prev).

(** The key a message is filed under: its symbol in lower case ([""] when
    absent), an underscore, its timeframe ([undefined] when absent). *)
Definition filed_under (m : Socket.Message) : string :=
  toLowerCase (default "" (Socket.symbol m))
  +:+ "_" +:+ default "undefined" (Socket.timeframe m).

(** The points the [live_zscore] messages of [events] carry for [key], in
    order of arrival. *)
Definition points_for (key : string) (events : list (Z * Socket.Message))
  : list ScorePoint :=
  omap (fun ev =>
          if bool_decide (Socket.type ev.2 = Some "live_zscore")
             && bool_decide (filed_under ev.2 = key)
          then Some (newPoint ev.1 ev.2) else None)
       events.

(** A [live_zscore] message filed under a name every object inherits. *)
Definition names_inherited (ev : Z * Socket.Message) : Prop :=
  Socket.type ev.2 = Some "live_zscore"
  /\ filed_under ev.2 ∈ Object_prototype_keys.

(** Whether the character occurs in the string. *)
Fixpoint has_char (c : Ascii.ascii) (s : string) : bool :=
  match s with
  | String.EmptyString => false
  | String.String d rest => bool_decide (c = d) || has_char c rest
  end.

Definition underscore : Ascii.ascii := Ascii.ascii_of_nat 95.

End LiveRunSpec.

Module MatcherRunSpec.
Import Backtester.

(** The open trade the loop is left with. *)
Definition open_after (signalData : list Signal) : option Trade :=
  (fold_left match_step signalData ([], None)).2.

(** The trades the loop adds when it starts with [currentTrade] open. *)
Definition resume (currentTrade : option Trade) (signalData : list Signal)
  : list Trade :=
  (fold_left match_step signalData ([], currentTrade)).1.

(** The signals of a list of round trips, entry before exit. *)
Fixpoint round_trip_signals (pairs : list (Signal * Signal)) : list Signal :=
  match pairs with
  | [] => []
  | p :: rest => p.1 :: p.2 :: round_trip_signals rest
  end.

Definition trade_of (p : Signal * Signal) : Trade :=
  {| entry := p.1; exit := Some p.2 |}.

End MatcherRunSpec.

(** * Properties *)

(** ** JavaScript array helpers *)

Lemma slice_from_neg {A} (n : Z) (arr : list A) :
  (0 < n)%Z -> slice_from (- n) arr = drop (length arr - Z.to_nat n) arr.
Proof.
  intros Hn. unfold slice_from.
  replace (- n <? 0)%Z with true by (symmetry; apply Z.ltb_lt; lia).
  f_equal. lia.
Qed.

Lemma slice_from_zero {A} (arr : list A) : slice_from 0 arr = arr.
Proof.
  unfold slice_from. simpl.
  replace (Z.to_nat (Z.min 0 (Z.of_nat (length arr)))) with 0 by lia.
  reflexivity.
Qed.

Lemma length_slice_from_neg {A} (n : Z) (arr : list A) :
  (0 < n)%Z -> length (slice_from (- n) arr) = length arr `min` Z.to_nat n.
Proof. intros Hn. rewrite slice_from_neg, length_drop by done. lia. Qed.

(** ** Series buffer *)

Module SeriesBufferFacts.
Import SeriesBuffer BufferSpec.

Lemma configured_capacity (tf : string) :
  maxPointsFor tf = 120%Z \/ maxPointsFor tf = 60%Z \/ maxPointsFor tf = 72%Z.
Proof.
  unfold maxPointsFor, MAX_POINTS.
  repeat case_decide; simpl; auto.
Qed.

Lemma configured_capacity_ge_2 (tf : string) : (2 <= maxPointsFor tf)%Z.
Proof. destruct (configured_capacity tf) as [->|[->| ->]]; lia. Qed.

Lemma applyUpdate_empty capacity c : applyUpdate capacity c [] = [c].
Proof. reflexivity. Qed.

Lemma applyUpdate_snoc capacity c init l :
  applyUpdate capacity c (init ++ [l]) =
    if decide (timestamp l = timestamp c) then init ++ [c]
    else slice_from (- (capacity - 1)) (init ++ [l]) ++ [c].
Proof.
  unfold applyUpdate.
  rewrite length_app. simpl.
  destruct (decide (length init + 1 = 0)) as [?|_]; [lia|].
  replace (length init + 1 - 1) with (length init + 0) by lia.
  rewrite lookup_app_r, Nat.add_comm, Nat.add_sub by lia. simpl.
  destruct (decide (timestamp l = timestamp c)) as [Heq|Hne].
  - rewrite decide_True by (by rewrite Heq).
    rewrite insert_app_r_alt, Nat.sub_diag by lia. reflexivity.
  - rewrite decide_False by congruence. reflexivity.
Qed.

Lemma length_applyUpdate capacity c prev :
  (2 <= capacity)%Z ->
  (Z.of_nat (length prev) <= capacity)%Z ->
  (Z.of_nat (length (applyUpdate capacity c prev)) <= capacity)%Z.
Proof.
  intros Hcap Hlen.
  destruct prev as [|x prev' _] using rev_ind; [simpl; lia|].
  rewrite applyUpdate_snoc. case_decide.
  - rewrite !length_app in *. simpl in *. lia.
  - rewrite length_app, length_slice_from_neg by lia. simpl. lia.
Qed.

(** Why the capacity has to be at least 2: with [maxPoints = 1] the updater
    calls [prev.slice(-0)], which keeps every candle. *)
Lemma applyUpdate_capacity_one c init l :
  timestamp l <> timestamp c ->
  applyUpdate 1 c (init ++ [l]) = (init ++ [l]) ++ [c].
Proof.
  intros Hne. rewrite applyUpdate_snoc, decide_False by done.
  by rewrite slice_from_zero.
Qed.

Lemma length_load capacity initial :
  (0 < capacity)%Z -> (Z.of_nat (length (load capacity initial)) <= capacity)%Z.
Proof. intros Hcap. unfold load. rewrite length_slice_from_neg by done. lia. Qed.

(** *** Sorting *)

Lemma insert_candle_perm c sorted : insert_candle c sorted ≡ₚ c :: sorted.
Proof.
  induction sorted as [|d rest IH]; simpl; [done|].
  case_match; [done|]. rewrite IH. apply Permutation_swap.
Qed.

Lemma sort_candles_perm cs : sort_candles cs ≡ₚ cs.
Proof.
  induction cs as [|c rest IH]; simpl; [done|].
  by rewrite insert_candle_perm, IH.
Qed.

Lemma insert_candle_sorted c sorted :
  nondecreasing sorted -> nondecreasing (insert_candle c sorted).
Proof.
  unfold nondecreasing, timestamps.
  induction sorted as [|d rest IH]; csimpl; intros Hs.
  { repeat constructor. }
  destruct (timestamp c <=? timestamp d)%Z eqn:Hcd; csimpl.
  - apply Z.leb_le in Hcd. constructor; [done|by constructor].
  - apply Z.leb_gt in Hcd. inversion Hs as [|? ? Hrest Hhd]; subst.
    constructor; [by apply IH|].
    destruct rest as [|e rest']; csimpl.
    + constructor. lia.
    + inversion Hhd; subst. case_match; csimpl; constructor; lia.
Qed.

Lemma sort_candles_sorted cs : nondecreasing (sort_candles cs).
Proof.
  induction cs as [|c rest IH]; simpl.
  - constructor.
  - by apply insert_candle_sorted.
Qed.

Lemma nondecreasing_NoDup (ts : list Z) :
  StronglySorted Z.le ts -> NoDup ts -> StronglySorted Z.lt ts.
Proof.
  induction 1 as [|t ts Hs IH Hall]; intros Hnd; [constructor|].
  apply NoDup_cons in Hnd as [Hnotin Hnd].
  constructor; [by apply IH|].
  rewrite Forall_forall in Hall |- *. intros u Hu.
  specialize (Hall u Hu).
  assert (t <> u) by (intros ->; done). lia.
Qed.

Lemma sort_candles_strict cs :
  NoDup (timestamps cs) -> strictly_increasing (sort_candles cs).
Proof.
  intros Hnd. unfold strictly_increasing.
  apply StronglySorted_Sorted, nondecreasing_NoDup.
  - apply (Sorted_StronglySorted _), sort_candles_sorted.
  - unfold timestamps. by rewrite sort_candles_perm.
Qed.

(** *** Order is kept by the pieces of the two operations *)

Lemma strictly_increasing_drop n buf :
  strictly_increasing buf -> strictly_increasing (drop n buf).
Proof.
  unfold strictly_increasing, timestamps. intros Hs.
  apply (Sorted_StronglySorted _) in Hs.
  apply StronglySorted_Sorted.
  rewrite <-(take_drop n buf), fmap_app in Hs.
  by apply StronglySorted_app_1_r in Hs.
Qed.

Lemma nondecreasing_drop n buf : nondecreasing buf -> nondecreasing (drop n buf).
Proof.
  unfold nondecreasing, timestamps. intros Hs.
  apply (Sorted_StronglySorted _) in Hs.
  apply StronglySorted_Sorted.
  rewrite <-(take_drop n buf), fmap_app in Hs.
  by apply StronglySorted_app_1_r in Hs.
Qed.

Lemma strictly_increasing_replace_last init l c :
  timestamp l = timestamp c ->
  strictly_increasing (init ++ [l]) -> strictly_increasing (init ++ [c]).
Proof.
  unfold strictly_increasing, timestamps. intros Heq.
  rewrite !fmap_app. simpl. by rewrite Heq.
Qed.

Lemma strictly_increasing_snoc n init l c :
  (timestamp l < timestamp c)%Z ->
  strictly_increasing (init ++ [l]) ->
  strictly_increasing (drop n (init ++ [l]) ++ [c]).
Proof.
  intros Hlt Hs. apply (strictly_increasing_drop n) in Hs.
  unfold strictly_increasing, timestamps in *.
  rewrite fmap_app. simpl. apply Sorted_snoc; [done|].
  destruct (decide (n <= length init)) as [Hle|Hgt].
  - rewrite drop_app_le, fmap_app by done. simpl. by constructor.
  - rewrite drop_ge by (rewrite length_app; simpl; lia). constructor.
Qed.

Lemma load_nondecreasing capacity initial : nondecreasing (load capacity initial).
Proof.
  unfold load, slice_from. apply nondecreasing_drop, sort_candles_sorted.
Qed.

Lemma load_strict capacity initial :
  NoDup (timestamps initial) -> strictly_increasing (load capacity initial).
Proof.
  intros Hnd. unfold load, slice_from.
  by apply strictly_increasing_drop, sort_candles_strict.
Qed.

Lemma applyUpdate_strict capacity c prev :
  (2 <= capacity)%Z ->
  strictly_increasing prev ->
  (forall l, last prev = Some l -> (timestamp l <= timestamp c)%Z) ->
  strictly_increasing (applyUpdate capacity c prev).
Proof.
  intros Hcap Hs Hord.
  destruct prev as [|l init _] using rev_ind.
  { rewrite applyUpdate_empty. repeat constructor. }
  specialize (Hord l (last_snoc _ _)).
  rewrite applyUpdate_snoc. case_decide.
  - by eapply strictly_increasing_replace_last.
  - rewrite slice_from_neg by lia.
    apply strictly_increasing_snoc; [lia|done].
Qed.

(** *** The buffers of a whole run *)

Lemma trace_length capacity buf ops :
  (2 <= capacity)%Z ->
  (Z.of_nat (length buf) <= capacity)%Z ->
  Forall (fun b => (Z.of_nat (length b) <= capacity)%Z) (trace capacity buf ops).
Proof.
  intros Hcap. revert buf.
  induction ops as [|o rest IH]; intros buf Hlen; simpl; [constructor|].
  assert (Z.of_nat (length (step capacity buf o)) <= capacity)%Z.
  { destruct o; simpl; [apply length_load; lia|by apply length_applyUpdate]. }
  constructor; [done|by apply IH].
Qed.

Lemma trace_strict capacity buf ops :
  (2 <= capacity)%Z ->
  strictly_increasing buf ->
  all_in_order capacity buf ops ->
  Forall strictly_increasing (trace capacity buf ops).
Proof.
  intros Hcap. revert buf.
  induction ops as [|o rest IH]; intros buf Hs Hord; simpl; [constructor|].
  destruct Hord as [Ho Hrest].
  assert (strictly_increasing (step capacity buf o)).
  { destruct o; simpl in *; [by apply load_strict|by apply applyUpdate_strict]. }
  constructor; [done|by apply IH].
Qed.

(** *** The buffer contract over runs *)

(** C1, as the code has it.  Over every run of [load] and [applyUpdate]
    operations from the empty buffer, with a capacity of at least 2 (the
    configured 120, 60 and 72 all are): after every operation the buffer holds
    at most [capacity] candles; every snapshot load leaves the timestamps in
    ascending, possibly repeating, order; and when every loaded snapshot has
    pairwise distinct timestamps and every update is no older than the
    buffer's last candle, the timestamps are strictly increasing after every
    operation as well. *)
Theorem buffer_contract_of_runs (capacity : Z) (ops : list Op) :
  (2 <= capacity)%Z ->
  (forall activeTimeframe, (2 <= maxPointsFor activeTimeframe)%Z)
  /\ Forall (fun buf => (Z.of_nat (length buf) <= capacity)%Z) (trace capacity [] ops)
  /\ (forall initial, nondecreasing (load capacity initial))
  /\ (all_in_order capacity [] ops ->
      Forall (within_contract capacity) (trace capacity [] ops)).
Proof.
  intros Hcap.
  assert (Hlen : Forall (fun buf => (Z.of_nat (length buf) <= capacity)%Z)
                   (trace capacity [] ops)).
  { apply trace_length; simpl; lia. }
  split; [apply configured_capacity_ge_2|].
  split; [exact Hlen|]. split; [intros; apply load_nondecreasing|].
  intros Hord.
  assert (Hs : Forall strictly_increasing (trace capacity [] ops)).
  { apply trace_strict; [done|constructor|done]. }
  unfold within_contract.
  rewrite Forall_forall in Hlen, Hs |- *. intros buf Hbuf. split; auto.
Qed.

Lemma buffer_contract_of_runs_witness :
  Forall (within_contract 3)
    (trace 3 []
       [Load [candle_at 2; candle_at 1]; ApplyUpdate (candle_at 2);
        ApplyUpdate (candle_at 3); ApplyUpdate (candle_at 4)]).
Proof.
  apply (buffer_contract_of_runs 3
           [Load [candle_at 2; candle_at 1]; ApplyUpdate (candle_at 2);
            ApplyUpdate (candle_at 3); ApplyUpdate (candle_at 4)]);
    [lia|].
  simpl. split.
  { change (NoDup [2; 1]%Z). apply NoDup_cons.
    split; [|apply NoDup_singleton].
    intros Hin. apply list_elem_of_singleton in Hin. lia. }
  repeat split; intros l Hl; vm_compute in Hl;
    inversion Hl; subst l; simpl; lia.
Defined.

(** C1, as stated, fails: an update older than the last candle is appended
    after it, and a snapshot with a repeated timestamp keeps both candles. *)
Lemma strict_order_not_kept :
  ~ Forall (within_contract 60)
      (trace 60 [] [ApplyUpdate (candle_at 5); ApplyUpdate (candle_at 3)])
  /\ ~ Forall (within_contract 60)
        (trace 60 [] [Load [candle_at 1; candle_at 1]]).
Proof.
  split; intros H.
  - apply Forall_cons in H as [_ H]. apply Forall_cons in H as [[H _] _].
    change (Sorted Z.lt [5; 3]%Z) in H. apply Sorted_inv in H as [_ Hhd].
    apply HdRel_inv in Hhd. lia.
  - apply Forall_cons in H as [[H _] _].
    change (Sorted Z.lt [1; 1]%Z) in H. apply Sorted_inv in H as [_ Hhd].
    apply HdRel_inv in Hhd. lia.
Qed.

(** *** Updates older than the last candle *)

(** C2, as stated, fails: with the buffer holding the candle at [t=5], the
    update at [t=3] is not rejected. *)
Lemma late_update_not_rejected :
  (timestamp (candle_at 3) < timestamp (candle_at 5))%Z
  /\ applyUpdate 60 (candle_at 3) [candle_at 5] <> [candle_at 5].
Proof. split; [unfold candle_at; simpl; lia|]. vm_compute. discriminate. Qed.

(** C2, as the code has it.  An update whose timestamp is smaller than the
    last candle's is handled like a newer one: it becomes the new last
    element, behind the candles already stored, of which the oldest are
    dropped so that at most [capacity] remain; the buffer is never left
    unchanged. *)
Theorem late_update_is_appended (capacity : Z) (c : Candle) (init : list Candle)
  (l : Candle) :
  (2 <= capacity)%Z ->
  (timestamp c < timestamp l)%Z ->
  applyUpdate capacity c (init ++ [l])
    = drop (length (init ++ [l]) + 1 - Z.to_nat capacity) (init ++ [l]) ++ [c]
  /\ applyUpdate capacity c (init ++ [l]) <> init ++ [l].
Proof.
  intros Hcap Hlt.
  assert (Heq : applyUpdate capacity c (init ++ [l])
    = drop (length (init ++ [l]) + 1 - Z.to_nat capacity) (init ++ [l]) ++ [c]).
  { rewrite applyUpdate_snoc, decide_False by lia.
    rewrite slice_from_neg by lia. do 2 f_equal. lia. }
  split; [exact Heq|].
  rewrite Heq. intros Habs.
  apply (f_equal last) in Habs. rewrite !last_snoc in Habs.
  injection Habs as ->. lia.
Qed.

Lemma late_update_is_appended_witness :
  applyUpdate 60 (candle_at 3) ([] ++ [candle_at 5])
    = drop (length ([] ++ [candle_at 5]) + 1 - Z.to_nat 60) ([] ++ [candle_at 5])
      ++ [candle_at 3]
  /\ applyUpdate 60 (candle_at 3) ([] ++ [candle_at 5]) <> [] ++ [candle_at 5].
Proof.
  apply (late_update_is_appended 60 (candle_at 3) [] (candle_at 5));
    unfold candle_at; simpl; lia.
Defined.

(** *** Replace, append, evict *)

(** C3.  On a non-empty buffer with last candle [l] and a capacity of at
    least 2, as every configured capacity is: an update with [l]'s timestamp
    takes [l]'s place and the length stays; an update with a greater
    timestamp is appended, the oldest candles leaving from the front so that
    the length is the smaller of the old length plus one and the capacity.
    With capacity 3, updates at t=1,2,3,4 from the empty buffer leave the
    candles at t=2,3,4. *)
Theorem applyUpdate_replace_append_evict (capacity : Z) (c : Candle)
  (init : list Candle) (l : Candle) :
  (2 <= capacity)%Z ->
  (forall activeTimeframe, (2 <= maxPointsFor activeTimeframe)%Z)
  /\ (timestamp l = timestamp c ->
     applyUpdate capacity c (init ++ [l]) = init ++ [c]
     /\ length (applyUpdate capacity c (init ++ [l])) = length (init ++ [l]))
  /\ ((timestamp l < timestamp c)%Z ->
     applyUpdate capacity c (init ++ [l])
       = drop (length (init ++ [l]) + 1 - Z.to_nat capacity) (init ++ [l]) ++ [c]
     /\ length (applyUpdate capacity c (init ++ [l]))
       = (length (init ++ [l]) + 1) `min` Z.to_nat capacity)
  /\ (forall c1 c2 c3 c4,
     timestamp c1 = 1%Z -> timestamp c2 = 2%Z ->
     timestamp c3 = 3%Z -> timestamp c4 = 4%Z ->
     last (trace 3 [] [ApplyUpdate c1; ApplyUpdate c2; ApplyUpdate c3; ApplyUpdate c4])
       = Some [c2; c3; c4]).
Proof.
  intros Hcap. split; [apply configured_capacity_ge_2|]. split; [|split].
  - intros Heq. rewrite applyUpdate_snoc, decide_True by done.
    split; [done|]. by rewrite !length_app.
  - intros Hlt.
    assert (Heq : applyUpdate capacity c (init ++ [l])
      = drop (length (init ++ [l]) + 1 - Z.to_nat capacity) (init ++ [l]) ++ [c]).
    { rewrite applyUpdate_snoc, decide_False by lia.
      rewrite slice_from_neg by lia. do 2 f_equal. lia. }
    split; [exact Heq|].
    rewrite Heq, length_app, length_drop. simpl. lia.
  - intros c1 c2 c3 c4 H1 H2 H3 H4. simpl.
    rewrite applyUpdate_empty.
    change [c1] with ([] ++ [c1]).
    rewrite applyUpdate_snoc, decide_False by lia.
    change (slice_from (- (3 - 1)) ([] ++ [c1]) ++ [c2]) with ([c1] ++ [c2]).
    rewrite applyUpdate_snoc, decide_False by lia.
    change (slice_from (- (3 - 1)) ([c1] ++ [c2]) ++ [c3]) with ([c1; c2] ++ [c3]).
    rewrite applyUpdate_snoc, decide_False by lia.
    reflexivity.
Qed.

Lemma applyUpdate_replace_append_evict_witness :
  applyUpdate 3 (candle_at 4) ([candle_at 1; candle_at 2] ++ [candle_at 3])
    = [candle_at 2; candle_at 3; candle_at 4].
Proof.
  pose proof (applyUpdate_replace_append_evict 3 (candle_at 4)
                [candle_at 1; candle_at 2] (candle_at 3)) as H.
  destruct H as (_ & _ & H & _); [lia|].
  destruct H as [H _]; [unfold candle_at; simpl; lia|].
  exact H.
Defined.

End SeriesBufferFacts.

(** ** Trade matching *)

Module MatcherFacts.
Import Backtester MatcherSpec.

Lemma flat_indices_snoc ps i j :
  flat_indices (ps ++ [(i, j)]) = (flat_indices ps ++ [i]) ++ [j].
Proof. induction ps as [|p ps IH]; simpl; [done|]. by rewrite IH. Qed.

Lemma closed_at_mono seen s t p : closed_at seen t p -> closed_at (seen ++ [s]) t p.
Proof.
  intros (e & x & He & Hx & ?). exists e, x.
  split; [by apply lookup_app_l_Some|]. split; [by apply lookup_app_l_Some|]. done.
Qed.

Lemma closed_at_bound seen trades ps :
  Forall2 (closed_at seen) trades ps ->
  Forall (fun i => i < length seen) (flat_indices ps).
Proof.
  induction 1 as [|t p trades ps (e & x & He & Hx & _) _ IH]; simpl.
  - constructor.
  - apply lookup_lt_Some in He, Hx. by repeat constructor.
Qed.

Lemma StronglySorted_lt_snoc (l : list nat) (j : nat) :
  StronglySorted lt l -> Forall (fun i => i < j) l -> StronglySorted lt (l ++ [j]).
Proof.
  intros Hs Hall. apply StronglySorted_app_2; [|done|repeat constructor].
  intros i k Hi Hk. apply list_elem_of_singleton in Hk as ->.
  rewrite Forall_forall in Hall. by apply Hall.
Qed.

Lemma match_step_inv seen st s :
  matcher_inv seen st -> matcher_inv (seen ++ [s]) (match_step st s).
Proof.
  destruct st as [trades [open_trade|]]; intros (ps & Hps & Hcur); simpl in *.
  - destruct Hcur as (i & Hi & Hentry & Hexit & Hsorted).
    rewrite andb_false_r.
    destruct (bool_decide (type s = "exit")) eqn:Hs.
    + apply bool_decide_eq_true in Hs.
      exists (ps ++ [(i, length seen)]). simpl. split.
      * apply Forall2_app.
        { eapply Forall2_impl; [exact Hps|]. intros; by apply closed_at_mono. }
        constructor; [|constructor].
        exists (entry open_trade), s. simpl.
        split; [by apply lookup_app_l_Some|].
        split; [by rewrite lookup_app_r, Nat.sub_diag|]. done.
      * rewrite flat_indices_snoc. apply StronglySorted_lt_snoc; [done|].
        apply Forall_app. split; [by eapply closed_at_bound|].
        constructor; [|constructor]. by eapply lookup_lt_Some.
    + exists ps. simpl. split.
      * eapply Forall2_impl; [exact Hps|]. intros; by apply closed_at_mono.
      * exists i. split; [by apply lookup_app_l_Some|]. done.
  - rewrite andb_true_r.
    destruct (bool_decide (type s = "entry")) eqn:Hs.
    + apply bool_decide_eq_true in Hs.
      exists ps. simpl. split.
      * eapply Forall2_impl; [exact Hps|]. intros; by apply closed_at_mono.
      * exists (length seen).
        split; [by rewrite lookup_app_r, Nat.sub_diag|]. split; [done|].
        split; [done|].
        apply StronglySorted_lt_snoc; [done|by eapply closed_at_bound].
    + exists ps. simpl. split; [|done].
      eapply Forall2_impl; [exact Hps|]. intros; by apply closed_at_mono.
Qed.

Lemma match_loop_inv signalData :
  matcher_inv signalData (fold_left match_step signalData ([], None)).
Proof.
  induction signalData as [|s seen IH] using rev_ind.
  - exists []. simpl. split; constructor.
  - rewrite fold_left_app. simpl. by apply match_step_inv.
Qed.

(** Every trade in the output is closed, by an exit later in the input than
    its entry, and the trades follow one another in the input. *)
Lemma matchTrades_pairing signalData :
  exists ps,
    Forall2 (closed_at signalData) (matchTrades signalData) ps /\
    Sorted lt (flat_indices ps).
Proof.
  destruct (match_loop_inv signalData) as (ps & Hps & Hcur).
  exists ps. split; [exact Hps|].
  apply StronglySorted_Sorted.
  destruct (fold_left match_step signalData ([], None)).2.
  - destruct Hcur as (i & _ & _ & _ & Hs). by apply StronglySorted_app_1_l in Hs.
  - done.
Qed.

Lemma matchTrades_closed signalData :
  Forall (fun t => is_Some (exit t)) (matchTrades signalData).
Proof.
  destruct (matchTrades_pairing signalData) as (ps & Hps & _).
  induction Hps as [|t p trades ps' (e & x & _ & _ & _ & _ & ->) _ IH];
    constructor; [by eexists|done].
Qed.

Lemma matchTrades_snoc signalData s :
  matchTrades (signalData ++ [s])
    = (match_step (fold_left match_step signalData ([], None)) s).1.
Proof. unfold matchTrades. by rewrite fold_left_app. Qed.

End MatcherFacts.

Module MatcherClaims.
Import Backtester MatcherSpec MatcherFacts.

(** C4.  The matcher is one left-to-right pass over the signals whose state
    holds the finished trades and at most one open trade.  An entry opens a
    trade when none is open and is discarded otherwise; an exit closes the
    open trade, which joins the end of the output, and is discarded when none
    is open; a trade still open at the end is not in the output, so a
    further entry at the end never changes it.  Every trade of the output is
    made of an entry signal and a later exit signal of the input, and the
    trades lie one after the other in the input. *)
Theorem matcher_single_pass (signalData : list Signal) :
  matchTrades signalData = (fold_left match_step signalData ([], None)).1
  /\ (forall trades s, type s = "entry" ->
        match_step (trades, None) s = (trades, Some {| entry := s; exit := None |}))
  /\ (forall trades open_trade s, type s = "entry" ->
        match_step (trades, Some open_trade) s = (trades, Some open_trade))
  /\ (forall trades open_trade s, type s = "exit" ->
        match_step (trades, Some open_trade) s
          = (trades ++ [{| entry := entry open_trade; exit := Some s |}], None))
  /\ (forall trades s, type s = "exit" ->
        match_step (trades, None) s = (trades, None))
  /\ (forall open_trade,
        (fold_left match_step signalData ([], None)).2 = Some open_trade ->
        open_trade ∉ matchTrades signalData)
  /\ (forall s, type s = "entry" ->
        matchTrades (signalData ++ [s]) = matchTrades signalData)
  /\ (exists ps,
        Forall2 (closed_at signalData) (matchTrades signalData) ps /\
        Sorted lt (flat_indices ps)).
Proof.
  split; [reflexivity|].
  split.
  { intros trades s Hs. simpl. by rewrite bool_decide_eq_true_2. }
  split.
  { intros trades ot s Hs. simpl. rewrite andb_false_r.
    rewrite bool_decide_eq_false_2; [done|]. by rewrite Hs. }
  split.
  { intros trades ot s Hs. simpl. rewrite andb_false_r.
    by rewrite bool_decide_eq_true_2. }
  split.
  { intros trades s Hs. simpl.
    rewrite bool_decide_eq_false_2; [done|]. by rewrite Hs. }
  split.
  { intros ot Hopen Hin.
    destruct (match_loop_inv signalData) as (ps & _ & Hcur).
    rewrite Hopen in Hcur. destruct Hcur as (_ & _ & _ & Hexit & _).
    pose proof (matchTrades_closed signalData) as Hclosed.
    rewrite Forall_forall in Hclosed. apply Hclosed in Hin as [x Hx].
    congruence. }
  split.
  { intros s Hs. rewrite matchTrades_snoc. unfold matchTrades.
    destruct (fold_left match_step signalData ([], None)) as [trades [ot|]]; simpl.
    - rewrite andb_false_r. rewrite bool_decide_eq_false_2; [done|]. by rewrite Hs.
    - by rewrite bool_decide_eq_true_2. }
  apply matchTrades_pairing.
Qed.

Lemma matcher_single_pass_witness :
  matchTrades (two_round_trips ++ [signal "entry" 5 95]) = matchTrades two_round_trips.
Proof.
  pose proof (matcher_single_pass two_round_trips) as (_ & _ & _ & _ & _ & _ & H & _).
  apply (H (signal "entry" 5 95)). reflexivity.
Defined.

End MatcherClaims.

(** ** Performance statistics *)

Module PerformanceFacts.
Import Backtester MatcherSpec PerformanceSpec MatcherFacts.
Local Open Scope float_scope.

(** *** Comparisons of binary64 numbers *)

Lemma Prim2SF_zero : Prim2SF 0 = S754_zero false.
Proof. reflexivity. Qed.

Lemma nonneg_lt_nonneg (a b : float) :
  (0 <=? a) = true -> (a <? b) = true -> (0 <=? b) = true.
Proof.
  rewrite !leb_spec, ltb_spec, Prim2SF_zero.
  unfold SFleb, SFltb.
  destruct (Prim2SF a) as [| [|] | | [|] ? ?], (Prim2SF b) as [| [|] | | [|] ? ?];
    simpl; done.
Qed.

Lemma zero_neither_sign (x : float) :
  (x =? 0) = true -> (0 <? x) = false /\ (x <? 0) = false.
Proof.
  rewrite FloatAxioms.eqb_spec, !ltb_spec, Prim2SF_zero.
  unfold SFeqb, SFltb.
  destruct (Prim2SF x) as [| [|] | | [|] ? ?]; simpl; done.
Qed.

Lemma positive_not_negative (x : float) : (0 <? x) = true -> (x <? 0) = false.
Proof.
  rewrite !ltb_spec, Prim2SF_zero.
  unfold SFltb.
  destruct (Prim2SF x) as [| [|] | | [|] ? ?]; simpl; done.
Qed.

(** *** From signals to statistics *)

Lemma stats_of_nil : stats_of [] = zero_stats.
Proof. reflexivity. Qed.

Lemma tradePnL_returns trades :
  Forall (fun t => is_Some (exit t)) trades ->
  exists pnl, mapM tradePnL_of trades = Some pnl /\ returns_of trades pnl.
Proof.
  intros Hclosed.
  destruct (mapM_is_Some_2 tradePnL_of trades) as [pnl Hpnl].
  { eapply Forall_impl; [exact Hclosed|].
    intros t [x Hx]. unfold tradePnL_of. simpl. rewrite Hx. by eexists. }
  exists pnl. split; [done|].
  apply mapM_Some_1 in Hpnl. eapply Forall2_impl; [exact Hpnl|].
  intros t p Htp. unfold tradePnL_of in Htp.
  destruct (exit t) as [x|]; [|done].
  exists x. split; [done|]. by injection Htp as <-.
Qed.

(** With at least one signal, [calculateMetrics] returns the statistics of
    the returns of the matched trades; it never throws. *)
Lemma calculateMetrics_Return priceData signalData :
  signalData <> [] ->
  exists pnl,
    returns_of (matchTrades signalData) pnl /\
    calculateMetrics priceData signalData = Return (stats_of pnl).
Proof.
  intros Hne. unfold calculateMetrics.
  rewrite decide_False by (by destruct signalData).
  destruct (tradePnL_returns (matchTrades signalData)) as (pnl & Hpnl & Hret).
  { apply matchTrades_closed. }
  exists pnl. split; [done|].
  case_decide as Hlen.
  - apply nil_length_inv in Hlen. rewrite Hlen in Hret.
    apply Forall2_nil_inv_l in Hret as ->. by rewrite stats_of_nil.
  - by rewrite Hpnl.
Qed.

Lemma matchTrades_nil : matchTrades [] = [].
Proof. reflexivity. Qed.

Lemma returns_of_mapM trades pnl :
  returns_of trades pnl -> mapM tradePnL_of trades = Some pnl.
Proof.
  intros H. apply mapM_Some_2. eapply Forall2_impl; [exact H|].
  intros t p (x & Hx & ->). unfold tradePnL_of. by rewrite Hx.
Qed.

Lemma returns_of_length trades pnl : returns_of trades pnl -> length pnl = length trades.
Proof. intros H. symmetry. by eapply Forall2_length. Qed.

Lemma calculateMetrics_never_throws priceData signalData :
  calculateMetrics priceData signalData <> ThrowTypeError.
Proof.
  destruct signalData as [|s rest]; [done|].
  destruct (calculateMetrics_Return priceData (s :: rest)) as (pnl & _ & ->); done.
Qed.

(** *** The drawdown loop *)

Lemma drawdown_loop pnl peak maxDrawdown cumulative :
  (fold_left drawdown_step pnl (peak, maxDrawdown, cumulative)).1.2
  = fold_left fmax
      (zip_with (fun pk c => pk - c)
         (running fmax peak (running (fun c p => c + p) cumulative pnl))
         (running (fun c p => c + p) cumulative pnl))
      maxDrawdown.
Proof.
  revert peak maxDrawdown cumulative.
  induction pnl as [|p rest IH]; intros peak md cum; [reflexivity|].
  simpl. rewrite <-IH. reflexivity.
Qed.

Lemma drawdown_loop_nonneg pnl peak maxDrawdown cumulative :
  (0 <=? maxDrawdown) = true ->
  (0 <=? (fold_left drawdown_step pnl (peak, maxDrawdown, cumulative)).1.2) = true.
Proof.
  revert peak maxDrawdown cumulative.
  induction pnl as [|p rest IH]; intros peak md cum Hmd; [exact Hmd|].
  simpl. apply IH.
  destruct (md <? _) eqn:Hlt; [|exact Hmd].
  by eapply nonneg_lt_nonneg.
Qed.

Lemma maxDrawdown_of_curve pnl :
  maxDrawdown_of pnl = fold_left fmax (drawdown_curve pnl) 0.
Proof. apply drawdown_loop. Qed.

Lemma maxDrawdown_of_nonneg pnl : (0 <=? maxDrawdown_of pnl) = true.
Proof. by apply drawdown_loop_nonneg. Qed.

(** *** Sums *)

Lemma fold_left_sum_map (f : float -> float) xs acc :
  fold_left (fun sum x => sum + f x) xs acc
  = fold_left (fun sum y => sum + y) (map f xs) acc.
Proof.
  revert acc. induction xs as [|x rest IH]; intros acc; [reflexivity|].
  simpl. apply IH.
Qed.

(** The [reduce] of the code adds the values up from the left. *)
Lemma sum_from_total xs acc :
  fold_left (fun sum pnl => sum + pnl) xs acc = total_from acc xs.
Proof.
  revert acc. induction xs as [|x rest IH]; intros acc; [reflexivity|].
  simpl. apply IH.
Qed.

Lemma sum_total xs : sum xs = total xs.
Proof. apply sum_from_total. Qed.

Lemma avgReturn_of_mean pnl : avgReturn_of pnl = mean pnl.
Proof. unfold avgReturn_of, mean. by rewrite sum_total. Qed.

Lemma variance_of_population pnl : variance_of pnl = population_variance pnl.
Proof.
  unfold variance_of, population_variance, pow2.
  rewrite avgReturn_of_mean, fold_left_sum_map.
  by rewrite sum_from_total.
Qed.

Lemma mean_or_zero_filter (f : float -> bool) pnl :
  (if (0 <? length (List.filter f pnl))%nat
   then sum (List.filter f pnl) / of_length (length (List.filter f pnl))
   else 0)
  = mean_or_zero (List.filter f pnl).
Proof.
  rewrite sum_total. by destruct (List.filter f pnl).
Qed.

(** *** The three buckets *)

Lemma buckets_disjoint pnl :
  (length (zeros pnl) + length (positives pnl) + length (negatives pnl)
   <= length pnl)%nat.
Proof.
  unfold zeros, positives, negatives.
  induction pnl as [|p rest IH]; simpl; [lia|].
  destruct (p =? 0) eqn:Hz.
  - apply zero_neither_sign in Hz as [-> ->]. simpl. lia.
  - destruct (0 <? p) eqn:Hp.
    + apply positive_not_negative in Hp as ->. simpl. lia.
    + destruct (p <? 0); simpl; lia.
Qed.

End PerformanceFacts.

Module PerformanceClaims.
Import Backtester MatcherSpec PerformanceSpec MatcherFacts PerformanceFacts.
Local Open Scope float_scope.

(** *** No trades *)

(** C8, as stated, fails for the empty signal list: the matcher's output is
    empty and [calculateMetrics] returns [null], not a record of zeros. *)
Lemma empty_signals_give_null :
  matchTrades [] = []
  /\ calculateMetrics [] [] = ReturnNull
  /\ calculateMetrics [] [] <> Return zero_stats.
Proof. repeat split. discriminate. Qed.

(** C8, as the code has it.  When the matcher produces no trade from a
    non-empty signal list, [calculateMetrics] returns the record whose nine
    fields are all zero; when the signal list itself is empty it returns
    [null]; in neither case does it throw, and the record of zeros is
    returned before any quotient is formed. *)
Theorem no_trades_statistics (priceData : list SeriesBuffer.Candle)
  (signalData : list Signal) :
  matchTrades signalData = [] ->
  (signalData <> [] ->
     exists stats,
       calculateMetrics priceData signalData = Return stats /\
       totalTrades stats = 0%nat /\ winningTrades stats = 0%nat /\
       losingTrades stats = 0%nat /\ winRate stats = 0 /\
       totalProfitLoss stats = 0 /\ avgProfit stats = 0 /\ avgLoss stats = 0 /\
       maxDrawdown stats = 0 /\ sharpeRatio stats = 0)
  /\ (signalData = [] -> calculateMetrics priceData signalData = ReturnNull)
  /\ calculateMetrics priceData signalData <> ThrowTypeError.
Proof.
  intros Hnone. split; [|split].
  - intros Hne. exists zero_stats. split; [|by repeat split].
    unfold calculateMetrics.
    rewrite decide_False by (by destruct signalData).
    rewrite Hnone. reflexivity.
  - intros ->. reflexivity.
  - apply calculateMetrics_never_throws.
Qed.

Lemma no_trades_statistics_witness :
  exists stats,
    calculateMetrics [] [signal "exit" 1 110; signal "exit" 2 120] = Return stats /\
    totalTrades stats = 0%nat /\ winRate stats = 0 /\ sharpeRatio stats = 0.
Proof.
  destruct (no_trades_statistics [] [signal "exit" 1 110; signal "exit" 2 120])
    as [H _]; [reflexivity|].
  destruct H as (stats & Hret & Htotal & _ & _ & Hrate & _ & _ & _ & _ & Hsharpe);
    [discriminate|].
  exists stats. repeat split; assumption.
Defined.

(** *** Maximum drawdown *)

(** C6.  Whenever [calculateMetrics] returns a record, its [maxDrawdown] is
    the largest value, and at least zero, of the drawdown curve of the
    per-trade returns: the running sum of the returns in trade order, the
    running peak of that sum, and at each step the peak minus the sum.  For
    the returns +10, +5, -20, +3 the sums are 10, 15, -5, -2, the peaks 10,
    15, 15, 15, the drawdowns 0, 0, 20, 17, and the result 20. *)
Theorem maxDrawdown_peak_to_trough (priceData : list SeriesBuffer.Candle)
  (signalData : list Signal) (stats : PerformanceStats) :
  calculateMetrics priceData signalData = Return stats ->
  (exists pnl,
     returns_of (matchTrades signalData) pnl /\
     maxDrawdown stats = fold_left fmax (drawdown_curve pnl) 0)
  /\ (0 <=? maxDrawdown stats) = true
  /\ (cumulative_curve [10; 5; -20; 3] = [10; 15; -5; -2]
      /\ peak_curve [10; 5; -20; 3] = [10; 15; 15; 15]
      /\ drawdown_curve [10; 5; -20; 3] = [0; 0; 20; 17]
      /\ maxDrawdown_of [10; 5; -20; 3] = 20).
Proof.
  intros Hret.
  assert (Hne : signalData <> []) by (by intros ->).
  destruct (calculateMetrics_Return priceData signalData Hne) as (pnl & Hpnl & Heq).
  rewrite Heq in Hret. injection Hret as <-. simpl.
  split; [|split].
  - exists pnl. split; [done|]. apply maxDrawdown_of_curve.
  - apply maxDrawdown_of_nonneg.
  - repeat split.
Qed.

Lemma maxDrawdown_peak_to_trough_witness :
  calculateMetrics [] drawdown_signals = Return (stats_of [10; 5; -20; 3])
  /\ (0 <=? maxDrawdown (stats_of [10; 5; -20; 3])) = true.
Proof.
  assert (H : calculateMetrics [] drawdown_signals = Return (stats_of [10; 5; -20; 3]))
    by reflexivity.
  split; [exact H|].
  exact (proj1 (proj2 (maxDrawdown_peak_to_trough [] drawdown_signals _ H))).
Defined.

(** *** Sharpe ratio *)

(** C5.  The code departs from the claim on three round trips with the
    same return 0.1 (bought at 1000, sold at 1001): the mean of the three
    returns, computed in binary64, is 0.10000000000000002, so the standard
    deviation is above zero, the guard [stdDev > 0] lets the quotient
    through, and the Sharpe ratio is above 10^17 where the claim says it is
    exactly 0. *)
Lemma equal_returns_sharpe_not_zero :
  exists p stats,
    p = (1001 - 1000) / 1000 * 100
    /\ returns_of (matchTrades equal_returns) [p; p; p]
    /\ calculateMetrics [] equal_returns = Return stats
    /\ totalTrades stats = 3%nat
    /\ (p <? totalProfitLoss stats / of_length (totalTrades stats)) = true
    /\ (0 <? sqrt (population_variance [p; p; p])) = true
    /\ (1e17 <? sharpeRatio stats) = true
    /\ sharpeRatio stats <> 0.
Proof.
  exists (trade_return 1000 1001), (stats_of [trade_return 1000 1001;
    trade_return 1000 1001; trade_return 1000 1001]).
  split; [reflexivity|]. split.
  { repeat constructor; eexists; (split; [reflexivity|reflexivity]). }
  split; [reflexivity|]. split; [reflexivity|]. split; [reflexivity|].
  split; [reflexivity|]. split; [reflexivity|].
  intros H. apply (f_equal (fun x => x =? 0)) in H. vm_compute in H. discriminate.
Qed.

(** The formula and its guard on every input.  For every signal list that
    yields at least one trade, with [avgReturn = totalProfitLoss / totalTrades]
    and [stdDev] the square root of the population variance of the returns
    (divisor [totalTrades]): [sharpeRatio] is [(avgReturn / stdDev) * sqrt 252]
    when [stdDev > 0] and 0 otherwise, hence exactly 0 whenever the computed
    [stdDev] equals 0. *)
Theorem sharpe_ratio_formula (priceData : list SeriesBuffer.Candle)
  (signalData : list Signal) :
  matchTrades signalData <> [] ->
  exists pnl stats,
    returns_of (matchTrades signalData) pnl
    /\ calculateMetrics priceData signalData = Return stats
    /\ totalTrades stats = length (matchTrades signalData)
    /\ totalProfitLoss stats = total pnl
    /\ let avgReturn := totalProfitLoss stats / of_length (totalTrades stats) in
       let stdDev := sqrt (population_variance pnl) in
       sharpeRatio stats
         = (if 0 <? stdDev then (avgReturn / stdDev) * sqrt 252 else 0)
       /\ ((stdDev =? 0) = true -> sharpeRatio stats = 0).
Proof.
  intros Htrades.
  assert (Hne : signalData <> []) by (by intros ->).
  destruct (calculateMetrics_Return priceData signalData Hne) as (pnl & Hpnl & Heq).
  exists pnl, (stats_of pnl).
  split; [done|]. split; [done|].
  split; [by apply returns_of_length|]. split; [apply sum_total|].
  simpl. unfold sharpeRatio_of, stdDev_of. rewrite variance_of_population.
  split; [reflexivity|].
  intros Hzero. apply zero_neither_sign in Hzero as [-> _]. reflexivity.
Qed.

Lemma sharpe_ratio_formula_witness :
  exists stats,
    calculateMetrics [] twin_round_trips = Return stats
    /\ totalProfitLoss stats = 20
    /\ sharpeRatio stats = 0.
Proof.
  destruct (sharpe_ratio_formula [] twin_round_trips)
    as (pnl & stats & Hpnl & Hret & _ & Htotal & _ & Hzero); [discriminate|].
  apply returns_of_mapM in Hpnl. vm_compute in Hpnl. injection Hpnl as <-.
  exists stats. split; [exact Hret|]. split; [exact Htotal|].
  apply Hzero. reflexivity.
Defined.

(** *** Returns, win rate, average profit and loss *)

(** C7.  For every signal list that yields at least one trade: the return
    of each trade is [(exit.price - entry.price) / entry.price * 100];
    [winRate] is the number of returns above zero over [totalTrades], times
    100; [avgProfit] is the mean of the returns above zero and [avgLoss] the
    mean of those below zero, each 0 when there are none; a return equal to
    zero is in neither bucket, although its trade counts in [totalTrades].
    The mean is the total of the values, added up from the first on, over
    their number: 37.5 for 50 and 25. *)
Theorem returns_and_rates (priceData : list SeriesBuffer.Candle)
  (signalData : list Signal) :
  matchTrades signalData <> [] ->
  exists pnl stats,
    calculateMetrics priceData signalData = Return stats
    /\ Forall2
         (fun t p => exists x, exit t = Some x /\
            p = (price x - price (entry t)) / price (entry t) * 100)
         (matchTrades signalData) pnl
    /\ totalTrades stats = length (matchTrades signalData)
    /\ winningTrades stats = length (positives pnl)
    /\ losingTrades stats = length (negatives pnl)
    /\ winRate stats
       = of_length (length (positives pnl)) / of_length (totalTrades stats) * 100
    /\ avgProfit stats = mean_or_zero (positives pnl)
    /\ avgLoss stats = mean_or_zero (negatives pnl)
    /\ (forall p, In p pnl -> (p =? 0) = true ->
          ~ In p (positives pnl) /\ ~ In p (negatives pnl))
    /\ (length (zeros pnl) + winningTrades stats + losingTrades stats
        <= totalTrades stats)%nat
    /\ (mean_or_zero [50; 25] = 37.5 /\ mean_or_zero [-50; -25] = -37.5
        /\ mean_or_zero [] = 0).
Proof.
  intros Htrades.
  assert (Hne : signalData <> []) by (by intros ->).
  destruct (calculateMetrics_Return priceData signalData Hne) as (pnl & Hpnl & Heq).
  pose proof (returns_of_length _ _ Hpnl) as Hlen.
  exists pnl, (stats_of pnl).
  split; [done|]. split; [exact Hpnl|]. split; [done|].
  split; [reflexivity|]. split; [reflexivity|]. simpl.
  split.
  { destruct pnl; [|reflexivity].
    simpl in Hlen. symmetry in Hlen. by apply nil_length_inv in Hlen. }
  split; [apply mean_or_zero_filter|]. split; [apply mean_or_zero_filter|].
  split.
  - intros p _ Hzero. apply zero_neither_sign in Hzero as [Hpos Hneg].
    unfold positives, negatives. rewrite !filter_In. split; intros [_ ?]; congruence.
  - split; [apply buckets_disjoint|]. repeat split.
Qed.

Lemma returns_and_rates_witness :
  exists stats,
    calculateMetrics [] five_round_trips = Return stats
    /\ totalTrades stats = 5%nat
    /\ winningTrades stats = 2%nat
    /\ losingTrades stats = 2%nat
    /\ winRate stats = 40
    /\ avgProfit stats = 37.5
    /\ avgLoss stats = -37.5.
Proof.
  destruct (returns_and_rates [] five_round_trips)
    as (pnl & stats & Hret & Hpnl & Htotal & Hwin & Hlose & Hrate & Hprofit
        & Hloss & _);
    [discriminate|].
  apply returns_of_mapM in Hpnl. vm_compute in Hpnl. injection Hpnl as <-.
  rewrite Htotal in Hrate.
  exists stats. split; [exact Hret|]. split; [exact Htotal|].
  split; [exact Hwin|]. split; [exact Hlose|].
  split; [exact Hrate|]. split; [exact Hprofit|]. exact Hloss.
Defined.

End PerformanceClaims.

(** ** Live z-score buffers *)

Module LiveScoreFacts.
Import AnalyticsLab LiveScoreSpec.

Lemma live_zscore_effect_other now m prev :
  Socket.type m <> Some "live_zscore" ->
  live_zscore_effect now (Some m) prev = NextState prev.
Proof.
  intros Hty. unfold live_zscore_effect.
  by rewrite bool_decide_eq_false_2.
Qed.

Lemma live_zscore_effect_insert now m prev :
  Socket.type m = Some "live_zscore" ->
  is_Some (prev !! key_of m) \/ key_of m ∉ Object_prototype_keys ->
  live_zscore_effect now (Some m) prev
  = NextState (<[key_of m := slice_from (-200)
                               (default [] (prev !! key_of m) ++ [newPoint now m])]>
                 prev).
Proof.
  intros Hty Hkey. unfold live_zscore_effect, get.
  rewrite bool_decide_eq_true_2 by done. cbn [negb].
  destruct (prev !! key_of m) as [existing|] eqn:Hprev; [done|].
  destruct Hkey as [[? ?]|Hkey]; [done|].
  by rewrite bool_decide_eq_false_2.
Qed.

Lemma live_zscore_effect_throws now m prev :
  Socket.type m = Some "live_zscore" ->
  prev !! key_of m = None ->
  key_of m ∈ Object_prototype_keys ->
  live_zscore_effect now (Some m) prev = TypeErrorNotIterable.
Proof.
  intros Hty Hprev Hkey. unfold live_zscore_effect, get.
  rewrite bool_decide_eq_true_2 by done. cbn [negb].
  by rewrite Hprev, bool_decide_eq_true_2.
Qed.

Lemma ordinary_key : "btcusdt_1m" ∉ Object_prototype_keys.
Proof.
  unfold Object_prototype_keys. rewrite !not_elem_of_cons.
  repeat split; try done. apply not_elem_of_nil.
Qed.

(** C9.  The code departs from the claim for a message filed under a name
    that every object inherits, such as [__proto__] (no symbol, timeframe
    [_proto__]): unless the state already holds a buffer of its own under
    that name, the updater throws and nothing is appended.  On every other
    [live_zscore] message the received point is appended to the buffer filed
    under the message's symbol in lower case, an underscore and its
    timeframe, whatever its timestamp (nothing is compared, merged or
    replaced): the new buffer is the last 200 elements of the old one
    followed by the point, so all older points stay while there is room and
    the oldest leave once there are more than 200; the buffers of all other
    keys are as before. *)
Theorem live_score_appended (now : Z) (m : Socket.Message)
  (prev : gmap string (list ScorePoint)) :
  Socket.type m = Some "live_zscore" ->
  let key := toLowerCase (default "" (Socket.symbol m))
             +:+ "_" +:+ default "undefined" (Socket.timeframe m) in
  let point :=
    {| timestamp := match Socket.timestamp m with
                    | Some t => if decide (t = 0%Z) then now else t
                    | None => now
                    end;
       value := default 0%float (Socket.z_score m) |} in
  let existing := default [] (prev !! key) in
  (prev !! key = None -> key ∈ Object_prototype_keys ->
     live_zscore_effect now (Some m) prev = TypeErrorNotIterable)
  /\ (is_Some (prev !! key) \/ key ∉ Object_prototype_keys ->
      exists next,
        live_zscore_effect now (Some m) prev = NextState next
        /\ next !! key
           = Some (drop (length existing + 1 - 200) (existing ++ [point]))
        /\ (exists kept,
              next !! key = Some (kept ++ [point]) /\
              kept = drop (length existing - 199) existing)
        /\ (length existing < 200 ->
            next !! key = Some (existing ++ [point]))
        /\ length (default [] (next !! key)) = (length existing + 1) `min` 200
        /\ (forall k, k <> key -> next !! k = prev !! k)).
Proof.
  intros Hty key point existing.
  change key with (key_of m) in *. change point with (newPoint now m).
  split; [by apply live_zscore_effect_throws|].
  intros Hkey. eexists. split; [by apply live_zscore_effect_insert|].
  set (next := <[key_of m := _]> prev).
  assert (Hnext : next !! key_of m
    = Some (drop (length existing + 1 - 200) (existing ++ [newPoint now m]))).
  { unfold next. rewrite lookup_insert_eq. fold existing.
    rewrite (slice_from_neg 200) by lia.
    rewrite length_app. simpl. do 2 f_equal. }
  split; [exact Hnext|]. split; [|split; [|split]].
  - exists (drop (length existing - 199) existing). split; [|done].
    rewrite Hnext. f_equal.
    destruct (decide (length existing + 1 - 200 <= length existing)) as [Hle|Hgt].
    + rewrite drop_app_le by done. do 2 f_equal. lia.
    + lia.
  - intros Hroom. rewrite Hnext.
    by replace (length existing + 1 - 200) with 0 by lia.
  - rewrite Hnext. simpl. rewrite length_drop, length_app. simpl. lia.
  - intros k Hk. unfold next. by rewrite lookup_insert_ne.
Qed.

Lemma live_score_appended_witness :
  live_zscore_effect 5 (Some proto_zscore) ∅ = TypeErrorNotIterable
  /\ exists next,
       live_zscore_effect 5 (Some same_instant) {[ "btcusdt_1m" := [first_point] ]}
       = NextState next
       /\ next !! "btcusdt_1m"
          = Some [first_point; {| timestamp := 1000; value := 2 |}].
Proof.
  split.
  - apply (live_score_appended 5 proto_zscore ∅); [reflexivity|reflexivity|].
    unfold Object_prototype_keys. simpl. do 7 (apply elem_of_cons; right).
    apply elem_of_cons. by left.
  - destruct (live_score_appended 5 same_instant {[ "btcusdt_1m" := [first_point] ]})
      as [_ H]; [reflexivity|].
    destruct H as (next & Hnext & _ & _ & H & _); [right; exact ordinary_key|].
    exists next. split; [exact Hnext|].
    apply H. rewrite lookup_singleton_eq. simpl. lia.
Defined.

End LiveScoreFacts.

(** ** Malformed frames and incomplete messages *)

Module DeliveryFacts.
Import Dashboard LiveScoreSpec.

Lemma toLowerCase_empty s : toLowerCase s = "" -> s = "".
Proof. by destruct s. Qed.

Lemma deliver_parsed JSON_parse chart_symbol activeTimeframe now data app m :
  JSON_parse data = Some m ->
  deliver JSON_parse chart_symbol activeTimeframe now data app
  = let effect :=
      SymbolChart.candle_update_effect chart_symbol activeTimeframe (Some m)
        (candles app) in
    match AnalyticsLab.live_zscore_effect now (Some m) (liveZScores app) with
    | AnalyticsLab.NextState liveZScores' =>
        Delivered
          {| socket := {| Socket.lastJsonMessage := Some m;
                          Socket.console := Socket.console (socket app) ++ effect.2 |};
             candles := effect.1;
             liveZScores := liveZScores' |}
    | AnalyticsLab.TypeErrorNotIterable => RenderThrows
    end.
Proof.
  intros Hparse. unfold deliver, Socket.parse_effect. rewrite Hparse.
  cbn [Socket.lastJsonMessage Socket.console].
  by destruct (SymbolChart.candle_update_effect chart_symbol activeTimeframe
                 (Some m) (candles app)).
Qed.

Lemma undefined_key : "_undefined" ∉ AnalyticsLab.Object_prototype_keys.
Proof.
  unfold AnalyticsLab.Object_prototype_keys. rewrite !not_elem_of_cons.
  repeat split; try done. apply not_elem_of_nil.
Qed.

(** C10, as stated, fails: a [live_zscore] message without [timestamp] and
    [z_score] is not dropped; a point with the current time and the score 0
    enters the buffer. *)
Lemma incomplete_zscore_applied :
  AnalyticsLab.live_zscore_effect 1700000000000 (Some bare_zscore) ∅
    = AnalyticsLab.NextState
        {[ "btcusdt_1m" := [{| AnalyticsLab.timestamp := 1700000000000;
                               AnalyticsLab.value := 0 |}] ]}
  /\ AnalyticsLab.live_zscore_effect 1700000000000 (Some bare_zscore) ∅
     <> AnalyticsLab.NextState ∅.
Proof.
  assert (H : AnalyticsLab.live_zscore_effect 1700000000000 (Some bare_zscore) ∅
              = AnalyticsLab.NextState
                  {[ "btcusdt_1m" := [{| AnalyticsLab.timestamp := 1700000000000;
                                         AnalyticsLab.value := 0 |}] ]}).
  { rewrite LiveScoreFacts.live_zscore_effect_insert;
      [|reflexivity|right; exact LiveScoreFacts.ordinary_key].
    change (AnalyticsLab.key_of bare_zscore) with "btcusdt_1m".
    by rewrite lookup_empty, insert_empty. }
  split; [exact H|].
  rewrite H. intros Heq.
  apply (f_equal (fun updated =>
                    match updated with
                    | AnalyticsLab.NextState st => st !! "btcusdt_1m"
                    | AnalyticsLab.TypeErrorNotIterable => None
                    end)) in Heq.
  by rewrite lookup_singleton_eq, lookup_empty in Heq.
Qed.

(** C10, as the code has it.  A frame whose body does not parse is dropped:
    the candles, the z-score buffers and [lastJsonMessage] stay as they are,
    exactly one warning is written and nothing is thrown.  A parsed
    [candle_update] without its [candle], without its [timeframe], or (for a
    chart whose symbol is not empty) without its [symbol] is dropped as
    well, with nothing written.  A parsed [live_zscore] message is not
    dropped when fields are missing: an absent symbol reads as [""], an
    absent timeframe as [undefined], an absent or zero timestamp as the
    current time and an absent score as 0, and the point is appended to the
    buffer filed under the resulting key; a message with none of the four is
    filed under [_undefined].  (Keys that name a property every object
    inherits are left aside.) *)
Theorem malformed_frames (JSON_parse : string -> option Socket.Message)
  (chart_symbol activeTimeframe : string) (now : Z) (data : string) (app : App) :
  let outcome := deliver JSON_parse chart_symbol activeTimeframe now data app in
  (JSON_parse data = None ->
     exists app',
       outcome = Delivered app'
       /\ candles app' = candles app
       /\ liveZScores app' = liveZScores app
       /\ Socket.lastJsonMessage (socket app') = Socket.lastJsonMessage (socket app)
       /\ Socket.console (socket app')
          = Socket.console (socket app) ++ [WarnUnparsable data])
  /\ (forall m,
        JSON_parse data = Some m ->
        Socket.type m = Some "candle_update" ->
        Socket.candle m = None \/ Socket.timeframe m = None
          \/ (Socket.symbol m = None /\ chart_symbol <> "") ->
        exists app',
          outcome = Delivered app'
          /\ candles app' = candles app
          /\ liveZScores app' = liveZScores app
          /\ Socket.console (socket app') = Socket.console (socket app))
  /\ (forall m,
        JSON_parse data = Some m ->
        Socket.type m = Some "live_zscore" ->
        let key := toLowerCase (default "" (Socket.symbol m))
                   +:+ "_" +:+ default "undefined" (Socket.timeframe m) in
        let point :=
          {| AnalyticsLab.timestamp :=
               match Socket.timestamp m with
               | Some t => if decide (t = 0%Z) then now else t
               | None => now
               end;
             AnalyticsLab.value := default 0%float (Socket.z_score m) |} in
        is_Some (liveZScores app !! key)
          \/ key ∉ AnalyticsLab.Object_prototype_keys ->
        exists app',
          outcome = Delivered app'
          /\ candles app' = candles app
          /\ liveZScores app' !! key
             = Some (slice_from (-200)
                       (default [] (liveZScores app !! key) ++ [point])))
  /\ (forall m,
        JSON_parse data = Some m ->
        Socket.type m = Some "live_zscore" ->
        Socket.symbol m = None -> Socket.timeframe m = None ->
        Socket.timestamp m = None -> Socket.z_score m = None ->
        exists app',
          outcome = Delivered app'
          /\ liveZScores app' !! "_undefined"
             = Some (slice_from (-200)
                       (default [] (liveZScores app !! "_undefined")
                        ++ [{| AnalyticsLab.timestamp := now;
                               AnalyticsLab.value := 0 |}]))).
Proof.
  intros outcome.
  assert (Hlive : forall m,
    JSON_parse data = Some m ->
    Socket.type m = Some "live_zscore" ->
    is_Some (liveZScores app !! AnalyticsLab.key_of m)
      \/ AnalyticsLab.key_of m ∉ AnalyticsLab.Object_prototype_keys ->
    exists app',
      outcome = Delivered app'
      /\ candles app' = candles app
      /\ liveZScores app' !! AnalyticsLab.key_of m
         = Some (slice_from (-200)
                   (default [] (liveZScores app !! AnalyticsLab.key_of m)
                    ++ [AnalyticsLab.newPoint now m]))).
  { intros m Hparse Hty Hkey. unfold outcome.
    rewrite (deliver_parsed _ _ _ _ _ _ m) by done.
    assert (Hchart : SymbolChart.candle_update_effect chart_symbol activeTimeframe
                       (Some m) (candles app) = (candles app, [])).
    { unfold SymbolChart.candle_update_effect.
      rewrite bool_decide_eq_false_2; [done|]. rewrite Hty. discriminate. }
    rewrite Hchart. cbv zeta.
    rewrite LiveScoreFacts.live_zscore_effect_insert by done.
    eexists. split; [reflexivity|].
    cbn [candles liveZScores fst]. split; [done|].
    by rewrite lookup_insert_eq. }
  split; [|split; [|split]].
  - intros Hparse. unfold outcome, deliver. simpl. rewrite Hparse.
    eexists. split; [reflexivity|]. simpl. done.
  - intros m Hparse Hty Hmissing. unfold outcome.
    rewrite (deliver_parsed _ _ _ _ _ _ m) by done.
    assert (Hchart : SymbolChart.candle_update_effect chart_symbol activeTimeframe
                       (Some m) (candles app) = (candles app, [])).
    { unfold SymbolChart.candle_update_effect.
      rewrite bool_decide_eq_true_2 by done. simpl.
      destruct Hmissing as [Hc|[Htf|[Hsym Hchart]]].
      - rewrite Hc. by repeat case_match.
      - rewrite Htf. rewrite (bool_decide_eq_false_2 (None = Some _)) by done.
        simpl. by case_match.
      - rewrite Hsym. simpl. rewrite bool_decide_eq_false_2; [done|].
        intros Heq. symmetry in Heq. by apply toLowerCase_empty in Heq. }
    rewrite Hchart. cbv zeta.
    rewrite LiveScoreFacts.live_zscore_effect_other by (rewrite Hty; discriminate).
    eexists. split; [reflexivity|].
    cbn [candles liveZScores socket Socket.console fst snd].
    split; [done|]. split; [done|]. by rewrite app_nil_r.
  - intros m Hparse Hty key point Hkey. by apply Hlive.
  - intros m Hparse Hty Hsym Htf Hts Hz.
    destruct (Hlive m Hparse Hty) as (app' & Hout & _ & Hbuf).
    { right. unfold AnalyticsLab.key_of. rewrite Hsym, Htf. exact undefined_key. }
    exists app'. split; [exact Hout|].
    unfold AnalyticsLab.key_of, AnalyticsLab.newPoint in Hbuf.
    rewrite Hsym, Htf, Hts, Hz in Hbuf. exact Hbuf.
Qed.

Lemma malformed_frames_witness :
  let app := {| socket := {| Socket.lastJsonMessage := None; Socket.console := [] |};
                candles := [BufferSpec.candle_at 5];
                liveZScores := ∅ |} in
  exists app',
    deliver (fun _ => None) "BTCUSDT" "1m" 7 "{not json" app = Delivered app'
    /\ candles app' = candles app
    /\ liveZScores app' = liveZScores app
    /\ Socket.lastJsonMessage (socket app') = Socket.lastJsonMessage (socket app)
    /\ Socket.console (socket app')
       = Socket.console (socket app) ++ [WarnUnparsable "{not json"].
Proof.
  intros app.
  apply (malformed_frames (fun _ => None) "BTCUSDT" "1m" 7 "{not json" app).
  reflexivity.
Defined.

End DeliveryFacts.

(** * Further properties *)

(** ** Snapshots and repeated updates *)

Module SeriesBufferExtras.
Import SeriesBuffer BufferSpec SeriesBufferFacts.

Lemma sort_candles_fixed cs : nondecreasing cs -> sort_candles cs = cs.
Proof.
  unfold nondecreasing, timestamps.
  induction cs as [|c rest IH]; csimpl; intros Hs; [done|].
  apply Sorted_inv in Hs as [Hrest Hhd].
  rewrite IH by done.
  destruct rest as [|d rest']; [done|]. csimpl in *.
  apply HdRel_inv in Hhd. simpl.
  by rewrite (proj2 (Z.leb_le _ _) Hhd).
Qed.

Lemma slice_from_short {A} (n : Z) (arr : list A) :
  (0 < n)%Z -> (Z.of_nat (length arr) <= n)%Z -> slice_from (- n) arr = arr.
Proof.
  intros Hn Hlen. rewrite slice_from_neg by done.
  by replace (length arr - Z.to_nat n) with 0 by lia.
Qed.

(** X1.  Loading what a load produced changes nothing: a snapshot that went
    through [sort] and [slice(-maxPoints)] comes out of them as it is. *)
Theorem load_idempotent (maxPoints : Z) (response_candles : list Candle) :
  (0 < maxPoints)%Z ->
  load maxPoints (load maxPoints response_candles) = load maxPoints response_candles.
Proof.
  intros Hcap. unfold load at 1.
  rewrite sort_candles_fixed by apply load_nondecreasing.
  apply slice_from_short; [done|]. by apply length_load.
Qed.

Lemma load_idempotent_witness :
  load 2 (load 2 [candle_at 3; candle_at 1; candle_at 2])
  = load 2 [candle_at 3; candle_at 1; candle_at 2].
Proof. apply (load_idempotent 2 [candle_at 3; candle_at 1; candle_at 2]). lia. Defined.

(** X2.  A load keeps the [maxPoints] candles with the greatest timestamps,
    in ascending order: the stored buffer and the candles left out make up
    the snapshot, no candle left out is newer than a stored one, and nothing
    is left out of a snapshot of at most [maxPoints] candles. *)
Theorem load_keeps_newest (maxPoints : Z) (response_candles : list Candle) :
  (0 < maxPoints)%Z ->
  exists left_out,
    response_candles ≡ₚ left_out ++ load maxPoints response_candles
    /\ length (load maxPoints response_candles)
       = length response_candles `min` Z.to_nat maxPoints
    /\ (forall old kept, old ∈ left_out -> kept ∈ load maxPoints response_candles ->
          (timestamp old <= timestamp kept)%Z)
    /\ nondecreasing (load maxPoints response_candles)
    /\ ((Z.of_nat (length response_candles) <= maxPoints)%Z -> left_out = []).
Proof.
  intros Hcap.
  set (k := length (sort_candles response_candles) - Z.to_nat maxPoints).
  assert (Hload : load maxPoints response_candles = drop k (sort_candles response_candles)).
  { unfold load. by rewrite slice_from_neg. }
  assert (Hlen : length (sort_candles response_candles) = length response_candles).
  { apply Permutation_length, sort_candles_perm. }
  exists (take k (sort_candles response_candles)). rewrite Hload.
  split; [by rewrite take_drop, sort_candles_perm|].
  split; [rewrite length_drop; lia|].
  split.
  { intros old kept Hold Hkept.
    pose proof (sort_candles_sorted response_candles) as Hs.
    unfold nondecreasing, timestamps in Hs.
    apply (Sorted_StronglySorted _) in Hs.
    rewrite <-(take_drop k (sort_candles response_candles)), fmap_app in Hs.
    eapply (StronglySorted_app_1_elem_of _ _ _ _ _ Hs); by apply list_elem_of_fmap_2. }
  split; [apply nondecreasing_drop, sort_candles_sorted|].
  intros Hfit. replace k with 0 by lia. reflexivity.
Qed.

Lemma load_keeps_newest_witness :
  exists left_out,
    [candle_at 3; candle_at 1; candle_at 2]
      ≡ₚ left_out ++ load 2 [candle_at 3; candle_at 1; candle_at 2]
    /\ length (load 2 [candle_at 3; candle_at 1; candle_at 2]) = 2.
Proof.
  destruct (load_keeps_newest 2 [candle_at 3; candle_at 1; candle_at 2])
    as (left_out & Hperm & Hlen & _); [lia|].
  exists left_out. split; [exact Hperm|exact Hlen].
Defined.

Lemma applyUpdate_last capacity c prev :
  exists init, applyUpdate capacity c prev = init ++ [c].
Proof.
  destruct prev as [|l init _] using rev_ind.
  - by exists [].
  - rewrite applyUpdate_snoc. case_decide; by eexists.
Qed.

(** X3.  After an update the incoming candle is the last element of the
    buffer, whatever its timestamp and whatever the capacity, and applying
    the same update once more changes nothing: a candle delivered twice is
    stored once. *)
Theorem applyUpdate_idempotent (capacity : Z) (c : Candle) (prev : list Candle) :
  last (applyUpdate capacity c prev) = Some c
  /\ applyUpdate capacity c (applyUpdate capacity c prev) = applyUpdate capacity c prev.
Proof.
  destruct (applyUpdate_last capacity c prev) as [init ->].
  split; [apply last_snoc|].
  by rewrite applyUpdate_snoc, decide_True.
Qed.

End SeriesBufferExtras.

(** ** Timeframe tabs and requests in flight *)

Module ChartLifecycleExtras.
Import SeriesBuffer ChartLifecycle LifecycleSpec SeriesBufferFacts.

Lemma cleanup_snoc earlier live :
  cleanup (earlier ++ [live])
  = earlier ++ [{| req_timeframe := req_timeframe live; ignore := true;
                   settled := settled live |}].
Proof.
  unfold cleanup. rewrite length_app. simpl.
  replace (length earlier + 1 - 1) with (length earlier + 0) by lia.
  by rewrite alter_app_r.
Qed.

Lemma candle_update_effect_length sym tf lastMessage prev :
  (Z.of_nat (length prev) <= maxPointsFor tf)%Z ->
  (Z.of_nat (length (SymbolChart.candle_update_effect sym tf lastMessage prev).1)
   <= maxPointsFor tf)%Z.
Proof.
  intros Hlen. unfold SymbolChart.candle_update_effect.
  repeat case_match; simpl; try done.
  apply length_applyUpdate; [apply configured_capacity_ge_2|done].
Qed.

Lemma candle_update_effect_skips sym tf m prev :
  Socket.timeframe m <> Some tf ->
  SymbolChart.candle_update_effect sym tf (Some m) prev = (prev, []).
Proof.
  intros Htf. unfold SymbolChart.candle_update_effect.
  rewrite (bool_decide_eq_false_2 (Socket.timeframe m = Some tf)) by done.
  by repeat case_match.
Qed.

Lemma candle_update_effect_applies sym tf m c prev :
  Socket.type m = Some "candle_update" ->
  toLowerCase (default "" (Socket.symbol m)) = toLowerCase sym ->
  Socket.timeframe m = Some tf ->
  Socket.candle m = Some c ->
  (SymbolChart.candle_update_effect sym tf (Some m) prev).1
  = applyUpdate (maxPointsFor tf) c prev.
Proof.
  intros Hty Hsym Htf Hc. unfold SymbolChart.candle_update_effect.
  rewrite !bool_decide_eq_true_2 by done. simpl. by rewrite Hc.
Qed.

Lemma mount_one_live sym lastMessage0 : one_live_request (mount sym lastMessage0).
Proof.
  exists [], {| req_timeframe := "1m"; ignore := false; settled := false |}.
  repeat split. constructor.
Qed.

Lemma step_one_live sym st ev :
  one_live_request st -> one_live_request (step sym st ev).
Proof.
  intros (earlier & live & Hreq & Hearlier & Hlive & Htf & Hload).
  destruct ev as [tf|n r detail|m]; simpl.
  - case_decide as Hsame; [by exists earlier, live|].
    exists (earlier ++ [{| req_timeframe := req_timeframe live; ignore := true;
                           settled := settled live |}]),
           {| req_timeframe := tf; ignore := false; settled := false |}.
    simpl. rewrite Hreq, cleanup_snoc.
    repeat split; [|done..]. apply Forall_app. split; [done|]. by repeat constructor.
  - destruct (requests st !! n) as [req|] eqn:Hn; [|by exists earlier, live].
    destruct (settled req) eqn:Hset; [by exists earlier, live|].
    rewrite Hreq in Hn.
    destruct (decide (n < length earlier)) as [Hlt|Hge].
    + rewrite lookup_app_l in Hn by done.
      assert (ignore req = true) as Hign.
      { rewrite Forall_forall in Hearlier. apply Hearlier.
        by eapply list_elem_of_lookup_2. }
      rewrite Hign.
      exists (mark_settled n earlier), live. simpl.
      rewrite Hreq. unfold mark_settled. rewrite alter_app_l by done.
      repeat split; [|done..].
      rewrite Forall_forall in Hearlier |- *. intros r' Hr'.
      apply list_elem_of_lookup in Hr' as [i Hi].
      rewrite list_lookup_alter in Hi. case_decide; [|by eapply Hearlier, list_elem_of_lookup_2].
      rewrite Hn in Hi. injection Hi as <-. done.
    + rewrite lookup_app_r in Hn by lia.
      destruct (n - length earlier) as [|k] eqn:Hk; [|by destruct k].
      injection Hn as <-. rewrite Hlive.
      exists earlier, {| req_timeframe := req_timeframe live; ignore := ignore live;
                         settled := true |}.
      simpl. rewrite Hreq. unfold mark_settled.
      replace n with (length earlier + 0) by lia. rewrite alter_app_r.
      by repeat split.
  - by exists earlier, live.
Qed.

Lemma run_one_live sym lastMessage0 evs :
  one_live_request (run sym (mount sym lastMessage0) evs).
Proof.
  unfold run. induction evs as [|ev evs IH] using rev_ind.
  - apply mount_one_live.
  - rewrite fold_left_app. simpl. by apply step_one_live.
Qed.

(** X4.  Whatever tabs are clicked, requests completed and messages
    received after mounting: the run of the fetch effect started last is the
    only one whose [ignore] flag is down, it asked for the timeframe on
    display, and [loading] is true exactly while its request has not
    completed. *)
Theorem only_latest_request_live (sym : string)
  (lastMessage0 : option Socket.Message) (evs : list Event) :
  one_live_request (run sym (mount sym lastMessage0) evs).
Proof.
  unfold run. induction evs as [|ev evs IH] using rev_ind.
  - exists [], {| req_timeframe := "1m"; ignore := false; settled := false |}.
    repeat split. constructor.
  - rewrite fold_left_app. cbn [fold_left]. by apply step_one_live.
Qed.

(** X5.  The response to a request that a later tab click has superseded
    changes nothing on screen: candles, loading flag, error, timeframe and
    console stay as they are, whatever the response carries. *)
Theorem stale_response_ignored (sym : string)
  (lastMessage0 : option Socket.Message) (evs : list Event) (n : nat)
  (r : SymbolChart.FetchOutcome) (detail : option string) :
  let st := run sym (mount sym lastMessage0) evs in
  n + 1 < length (requests st) ->
  let st' := step sym st (Settle n r detail) in
  candles st' = candles st /\ loading st' = loading st /\ error st' = error st
  /\ console st' = console st /\ activeTimeframe st' = activeTimeframe st.
Proof.
  intros st Hn st'.
  destruct (run_one_live sym lastMessage0 evs)
    as (earlier & live & Hreq & Hearlier & _).
  fold st in Hreq. unfold st'. simpl.
  rewrite Hreq, length_app in Hn. simpl in Hn.
  destruct (requests st !! n) as [req|] eqn:Hreqn; [|done].
  destruct (settled req); [done|].
  rewrite Hreq, lookup_app_l in Hreqn by lia.
  rewrite Forall_forall in Hearlier.
  rewrite (Hearlier req) by (by eapply list_elem_of_lookup_2). done.
Qed.

Lemma stale_response_ignored_witness :
  let st := run "BTCUSDT" (mount "BTCUSDT" None) [SetActiveTimeframe "1s"] in
  let st' := step "BTCUSDT" st
               (Settle 0 (SymbolChart.FetchOk (Some [BufferSpec.candle_at 60])) None) in
  candles st' = candles st /\ loading st' = loading st /\ error st' = error st
  /\ console st' = console st /\ activeTimeframe st' = activeTimeframe st.
Proof.
  apply (stale_response_ignored "BTCUSDT" None [SetActiveTimeframe "1s"] 0
           (SymbolChart.FetchOk (Some [BufferSpec.candle_at 60])) None).
  simpl. lia.
Defined.

Lemma step_idle sym st ev :
  one_live_request st -> idle_within_capacity st ->
  idle_within_capacity (step sym st ev).
Proof.
  intros (earlier & live & Hreq & Hearlier & Hlive & Htf & Hload) Hidle.
  unfold idle_within_capacity.
  destruct ev as [tf|n r detail|m]; cbn [step].
  - case_decide; [done|]. cbn [loading]. discriminate.
  - destruct (requests st !! n) as [req|] eqn:Hn; [|done].
    destruct (settled req); [done|].
    destruct (ignore req) eqn:Hign; [done|].
    assert (req = live) as ->.
    { rewrite Hreq in Hn.
      destruct (decide (n < length earlier)) as [Hlt|Hge].
      - rewrite lookup_app_l in Hn by done.
        rewrite Forall_forall in Hearlier.
        rewrite (Hearlier req) in Hign by (by eapply list_elem_of_lookup_2). done.
      - rewrite lookup_app_r in Hn by lia.
        destruct (n - length earlier) as [|k]; [|by destruct k]. by injection Hn. }
    cbn [loading error candles activeTimeframe].
    intros _ Herr.
    destruct r as [cs|]; [|done]. cbn [SymbolChart.fetchCandles fst]. rewrite Htf.
    apply length_load.
    pose proof (configured_capacity_ge_2 (activeTimeframe st)). lia.
  - cbn [loading error candles activeTimeframe]. intros Hloading Herr.
    apply candle_update_effect_length. by apply Hidle.
Qed.

(** X6.  Whatever tabs are clicked, requests completed and messages
    received after mounting: whenever no request is outstanding and no error
    is shown, the buffer holds at most the capacity of the timeframe on
    display. *)
Theorem idle_chart_within_capacity (sym : string)
  (lastMessage0 : option Socket.Message) (evs : list Event) :
  idle_within_capacity (run sym (mount sym lastMessage0) evs).
Proof.
  assert (H : one_live_request (run sym (mount sym lastMessage0) evs)
              /\ idle_within_capacity (run sym (mount sym lastMessage0) evs)).
  { unfold run. induction evs as [|ev evs [IH1 IH2]] using rev_ind.
    - split; [apply mount_one_live|]. intros Hloading. discriminate.
    - rewrite fold_left_app. simpl.
      split; [by apply step_one_live|by apply step_idle]. }
  apply H.
Qed.

Lemma idle_chart_within_capacity_witness :
  let st := run "BTCUSDT" (mount "BTCUSDT" None)
              [Settle 0 (SymbolChart.FetchOk (Some [BufferSpec.candle_at 60])) None;
               Receive LifecycleSpec.one_minute_update] in
  loading st = false /\ error st = None
  /\ (Z.of_nat (length (candles st)) <= maxPointsFor (activeTimeframe st))%Z.
Proof.
  intros st. split; [reflexivity|]. split; [reflexivity|].
  apply (idle_chart_within_capacity "BTCUSDT" None
           [Settle 0 (SymbolChart.FetchOk (Some [BufferSpec.candle_at 60])) None;
            Receive LifecycleSpec.one_minute_update]); reflexivity.
Defined.

(** X7.  A [candle_update] for a timeframe that is not on display is dropped
    when it arrives, but it stays the provider's [lastMessage]: when the user
    then switches to that timeframe, the effect runs again and applies the
    candle to the buffer still holding the previous timeframe's candles. *)
Theorem dropped_update_applied_on_switch (sym : string) (st : Chart)
  (m : Socket.Message) (c : Candle) (tf : string) :
  tf <> activeTimeframe st ->
  Socket.type m = Some "candle_update" ->
  toLowerCase (default "" (Socket.symbol m)) = toLowerCase sym ->
  Socket.timeframe m = Some tf ->
  Socket.candle m = Some c ->
  let st1 := step sym st (Receive m) in
  let st2 := step sym st1 (SetActiveTimeframe tf) in
  candles st1 = candles st
  /\ candles st2 = applyUpdate (maxPointsFor tf) c (candles st).
Proof.
  intros Hother Hty Hsym Htf Hc st1 st2.
  unfold st2, st1. cbn [step activeTimeframe lastMessage candles].
  rewrite decide_False by done. cbn [candles].
  rewrite candle_update_effect_skips by (rewrite Htf; congruence).
  split; [done|]. cbn [fst].
  by rewrite (candle_update_effect_applies sym tf m c).
Qed.

Lemma dropped_update_applied_on_switch_witness :
  let st := mount "BTCUSDT" None in
  let st1 := step "BTCUSDT" st (Receive five_minute_update) in
  let st2 := step "BTCUSDT" st1 (SetActiveTimeframe "5m") in
  candles st1 = candles st
  /\ candles st2 = applyUpdate (maxPointsFor "5m") (BufferSpec.candle_at 300) (candles st).
Proof.
  apply (dropped_update_applied_on_switch "BTCUSDT" (mount "BTCUSDT" None)
           five_minute_update (BufferSpec.candle_at 300) "5m"); by vm_compute.
Defined.

(** X19.  While the request for the timeframe on display is outstanding,
    its completion decides the buffer alone: on success the buffer becomes
    the load of the response, whatever updates were applied in the meantime,
    and on failure the buffer stays, the error message is set and one error
    is logged; either way loading ends. *)
Theorem response_replaces_buffer (sym : string)
  (lastMessage0 : option Socket.Message) (evs : list Event)
  (response_candles : option (list Candle)) (detail : option string) :
  let st := run sym (mount sym lastMessage0) evs in
  let n := length (requests st) - 1 in
  loading st = true ->
  (let st' := step sym st (Settle n (SymbolChart.FetchOk response_candles) detail) in
   candles st' = load (maxPointsFor (activeTimeframe st)) (default [] response_candles)
   /\ loading st' = false /\ error st' = error st /\ console st' = console st)
  /\ (let st' := step sym st (Settle n SymbolChart.FetchFailed detail) in
      candles st' = candles st
      /\ loading st' = false /\ error st' = Some (error_message detail)
      /\ console st' = console st ++ [ErrorFetch sym]).
Proof.
  intros st n Hloading.
  destruct (run_one_live sym lastMessage0 evs)
    as (earlier & live & Hreq & _ & Hlive & Htf & Hload).
  fold st in Hreq, Htf, Hload.
  assert (Hn : requests st !! n = Some live).
  { unfold n. rewrite Hreq, length_app. simpl.
    rewrite lookup_app_r by lia.
    by replace (length earlier + 1 - 1 - length earlier) with 0 by lia. }
  assert (Hset : settled live = false).
  { rewrite Hloading in Hload. by destruct (settled live). }
  split; cbn [step]; rewrite Hn, Hset, Hlive;
    cbn [candles loading error console SymbolChart.fetchCandles fst snd];
    rewrite ?Htf, ?app_nil_r; done.
Qed.

Lemma response_replaces_buffer_witness :
  let st := run "BTCUSDT" (mount "BTCUSDT" None)
              [Receive LifecycleSpec.one_minute_update] in
  let st' := step "BTCUSDT" st
               (Settle 0 (SymbolChart.FetchOk (Some [BufferSpec.candle_at 120;
                                                     BufferSpec.candle_at 60])) None) in
  candles st = [BufferSpec.candle_at 180]
  /\ candles st' = [BufferSpec.candle_at 60; BufferSpec.candle_at 120].
Proof.
  intros st st'. split; [reflexivity|].
  destruct (response_replaces_buffer "BTCUSDT" None
              [Receive LifecycleSpec.one_minute_update]
              (Some [BufferSpec.candle_at 120; BufferSpec.candle_at 60]) None)
    as [(H & _) _]; [reflexivity|].
  exact H.
Defined.

End ChartLifecycleExtras.

(** ** Successive frames *)

Module SocketExtras.
Import SocketSpec.

Lemma parse_run_snoc JSON_parse frames data st :
  parse_run JSON_parse (frames ++ [data]) st
  = Socket.parse_effect JSON_parse (Some data) (parse_run JSON_parse frames st).
Proof. unfold parse_run. by rewrite fold_left_app. Qed.

(** X8.  After any succession of raw frames, [lastJsonMessage] is the parse
    of the most recent frame that parsed (the previous value when none did:
    a bad frame never clears it), and the console has gained one warning for
    each frame that did not parse, in order of arrival. *)
Theorem last_parsable_frame_wins (JSON_parse : string -> option Socket.Message)
  (frames : list string) (st : Socket.State) :
  Socket.lastJsonMessage (parse_run JSON_parse frames st)
    = match last (omap JSON_parse frames) with
      | Some parsed => Some parsed
      | None => Socket.lastJsonMessage st
      end
  /\ Socket.console (parse_run JSON_parse frames st)
     = Socket.console st
       ++ (WarnUnparsable <$> filter (fun data => JSON_parse data = None) frames).
Proof.
  induction frames as [|data frames [IHm IHc]] using rev_ind.
  - simpl. by rewrite app_nil_r.
  - rewrite parse_run_snoc, omap_app, filter_app, fmap_app. simpl.
    destruct (JSON_parse data) as [parsed|] eqn:Hparse; simpl.
    + rewrite last_snoc. split; [done|].
      rewrite filter_cons_False by (by rewrite Hparse).
      by rewrite filter_nil, app_nil_r.
    + rewrite app_nil_r. split; [done|].
      rewrite filter_cons_True by done. rewrite filter_nil. simpl.
      by rewrite IHc, <-app_assoc.
Qed.

End SocketExtras.

(** ** Runs of live z-score messages *)

Module LiveRunExtras.
Import AnalyticsLab LiveRunSpec LiveScoreFacts.

Lemma slice_from_snoc {A} (n : Z) (arr : list A) (p : A) :
  (0 < n)%Z ->
  slice_from (- n) (slice_from (- n) arr ++ [p]) = slice_from (- n) (arr ++ [p]).
Proof.
  intros Hn. rewrite !slice_from_neg by done.
  rewrite !length_app, length_drop. simpl.
  destruct (decide (length arr <= Z.to_nat n)) as [Hle|Hgt].
  - replace (length arr - Z.to_nat n) with 0 by lia.
    by rewrite drop_0, Nat.sub_0_r.
  - rewrite !drop_app_le by (rewrite ?length_drop; lia).
    rewrite drop_drop. do 2 f_equal. lia.
Qed.

Lemma points_for_snoc key events now m :
  points_for key (events ++ [(now, m)])
  = points_for key events
    ++ (if bool_decide (Socket.type m = Some "live_zscore")
           && bool_decide (filed_under m = key)
        then [newPoint now m] else []).
Proof.
  unfold points_for. rewrite omap_app. f_equal. simpl.
  by destruct (bool_decide (Socket.type m = Some "live_zscore")
               && bool_decide (filed_under m = key)).
Qed.

Lemma run_live_snoc events ev prev :
  run_live (events ++ [ev]) prev = live_step (run_live events prev) ev.
Proof. unfold run_live. by rewrite fold_left_app. Qed.

#[local] Instance names_inherited_dec ev : Decision (names_inherited ev).
Proof. unfold names_inherited. apply _. Defined.

(** As long as no message is filed under an inherited name, the run goes
    through and every key holds the last 200 of its points. *)
Lemma run_live_safe events :
  Forall (fun ev => ~ names_inherited ev) events ->
  exists st,
    run_live events ∅ = NextState st
    /\ forall key,
         st !! key = match points_for key events with
                     | [] => None
                     | pts => Some (slice_from (-200) pts)
                     end.
Proof.
  induction events as [|[now m] events IH] using rev_ind; intros Hall.
  { exists ∅. split; [done|]. intros key. by rewrite lookup_empty. }
  apply Forall_app in Hall as [Hall Hev]. rewrite Forall_singleton in Hev.
  destruct (IH Hall) as (st & Hrun & Hst).
  rewrite run_live_snoc, Hrun. cbn [live_step fst snd].
  destruct (decide (Socket.type m = Some "live_zscore")) as [Hty|Hty].
  - assert (Hkey : key_of m ∉ Object_prototype_keys).
    { intros Hin. apply Hev. by split. }
    rewrite live_zscore_effect_insert by (done || by right).
    eexists. split; [reflexivity|]. intros key.
    rewrite points_for_snoc, (bool_decide_eq_true_2 _ Hty). cbn [andb].
    change (filed_under m) with (key_of m).
    destruct (bool_decide (key_of m = key)) eqn:Hk.
    + apply bool_decide_eq_true in Hk. subst key.
      rewrite lookup_insert_eq, Hst.
      assert (default [] match points_for (key_of m) events with
                         | [] => None
                         | pts => Some (slice_from (-200) pts)
                         end
              = slice_from (-200) (points_for (key_of m) events)) as ->.
      { by destruct (points_for (key_of m) events). }
      rewrite (slice_from_snoc 200) by lia.
      by destruct (points_for (key_of m) events).
    + apply bool_decide_eq_false in Hk.
      rewrite lookup_insert_ne by done. rewrite app_nil_r. apply Hst.
  - rewrite live_zscore_effect_other by done.
    exists st. split; [done|]. intros key.
    rewrite points_for_snoc, (bool_decide_eq_false_2 _ Hty). cbn [andb].
    rewrite app_nil_r. apply Hst.
Qed.

Lemma points_for_inherited events key :
  Forall (fun ev => ~ names_inherited ev) events ->
  key ∈ Object_prototype_keys ->
  points_for key events = [].
Proof.
  intros Hall Hkey. unfold points_for.
  induction Hall as [|ev events Hev _ IH]; [done|].
  cbn [omap list_omap]. rewrite IH.
  destruct (bool_decide (Socket.type ev.2 = Some "live_zscore")) eqn:Hty;
    [|done].
  destruct (bool_decide (filed_under ev.2 = key)) eqn:Hk; [|done].
  apply bool_decide_eq_true in Hty, Hk. destruct Hev. split; [done|].
  by rewrite Hk.
Qed.

(** The first message filed under an inherited name ends the run. *)
Lemma run_live_throws events :
  Exists names_inherited events -> run_live events ∅ = TypeErrorNotIterable.
Proof.
  induction events as [|[now m] events IH] using rev_ind; intros Hex.
  { by apply Exists_nil in Hex. }
  rewrite run_live_snoc.
  destruct (decide (Exists names_inherited events)) as [Hearlier|Hnone].
  { by rewrite IH. }
  apply not_Exists_Forall in Hnone; [|apply _].
  apply Exists_app in Hex as [Hex|Hex]; [by rewrite IH|].
  apply Exists_cons in Hex as [[Hty Hkey]|Hex]; [|by apply Exists_nil in Hex].
  destruct (run_live_safe events Hnone) as (st & Hrun & Hst).
  rewrite Hrun. cbn [live_step fst snd].
  apply live_zscore_effect_throws; [done| |done].
  change (filed_under (now, m).2) with (key_of m) in Hkey.
  rewrite Hst. by rewrite (points_for_inherited events _ Hnone Hkey).
Qed.

(** X9.  A succession of messages, starting with no buffers, ends in a
    [TypeError] as soon as a [live_zscore] message is filed under a name
    every object inherits (such as [__proto__]).  When no message is, the
    run goes through, and then a key has a buffer exactly when some
    [live_zscore] message carried a point for it, and its buffer is the last
    200 of those points in order of arrival; so no buffer is ever empty or
    longer than 200. *)
Theorem live_buffers_after_run (events : list (Z * Socket.Message)) :
  (Exists names_inherited events -> run_live events ∅ = TypeErrorNotIterable)
  /\ (Forall (fun ev => ~ names_inherited ev) events ->
      exists st,
        run_live events ∅ = NextState st
        /\ forall key,
             (points_for key events = [] -> st !! key = None)
             /\ (points_for key events <> [] ->
                 st !! key
                 = Some (drop (length (points_for key events) - 200)
                           (points_for key events)))
             /\ (forall buf, st !! key = Some buf -> 1 <= length buf <= 200)).
Proof.
  split; [apply run_live_throws|].
  intros Hall. destruct (run_live_safe events Hall) as (st & Hrun & Hst).
  exists st. split; [exact Hrun|]. intros key. rewrite Hst.
  destruct (points_for key events) as [|p pts] eqn:Hpts.
  - split; [done|]. split; [done|]. intros buf Hbuf. discriminate.
  - split; [done|]. split; [by rewrite (slice_from_neg 200) by lia|].
    intros buf [= <-]. rewrite (slice_from_neg 200), length_drop by lia.
    simpl. lia.
Qed.

Lemma live_buffers_after_run_witness :
  run_live [(5%Z, LiveScoreSpec.same_instant); (6%Z, LiveScoreSpec.proto_zscore);
            (7%Z, LiveScoreSpec.bare_zscore)] ∅
  = TypeErrorNotIterable
  /\ exists st,
       run_live [(5%Z, LiveScoreSpec.same_instant); (6%Z, LiveScoreSpec.bare_zscore)] ∅
       = NextState st
       /\ st !! "btcusdt_1m"
          = Some [{| timestamp := 1000; value := 2 |}; {| timestamp := 6; value := 0 |}].
Proof.
  split.
  - apply (live_buffers_after_run
             [(5%Z, LiveScoreSpec.same_instant); (6%Z, LiveScoreSpec.proto_zscore);
              (7%Z, LiveScoreSpec.bare_zscore)]).
    apply Exists_cons. right. apply Exists_cons. left.
    split; [reflexivity|].
    unfold Object_prototype_keys. do 7 (apply elem_of_cons; right).
    apply elem_of_cons. by left.
  - destruct (live_buffers_after_run
                [(5%Z, LiveScoreSpec.same_instant); (6%Z, LiveScoreSpec.bare_zscore)])
      as [_ H].
    destruct H as (st & Hrun & Hst).
    { constructor; [|constructor; [|constructor]];
        intros [_ Hin]; by apply ordinary_key in Hin. }
    exists st. split; [exact Hrun|].
    destruct (Hst "btcusdt_1m") as (_ & H & _).
    apply H. vm_compute. discriminate.
Defined.

Lemma join_key_inj (s1 t1 s2 t2 : string) :
  has_char underscore s2 = false ->
  has_char underscore t2 = false ->
  s1 +:+ "_" +:+ t1 = s2 +:+ "_" +:+ t2 ->
  s1 = s2 /\ t1 = t2.
Proof.
  revert s2. induction s1 as [|c s1 IH]; intros s2 Hs2 Ht2 Heq.
  - destruct s2 as [|d s2]; simpl in Heq, Hs2.
    + by inversion Heq.
    + inversion Heq; subst d. by vm_compute in Hs2.
  - destruct s2 as [|d s2]; simpl in Heq, Hs2.
    + inversion Heq as [[Hc Ht]]. exfalso.
      change (s1 +:+ "_" +:+ t1 = t2) in Ht. subst t2.
      clear IH Hs2 Heq. induction s1 as [|e s1 IH]; simpl in Ht2.
      * by vm_compute in Ht2.
      * apply orb_false_elim in Ht2 as [_ Ht2]. by apply IH.
    + inversion Heq as [[Hc Ht]]. apply orb_false_elim in Hs2 as [_ Hs2].
      destruct (IH s2 Hs2 Ht2 Ht) as [-> ->]. done.
Qed.

(** X10.  The buffer key [`${symbol}_${tf}`] identifies the pair: for a
    symbol and a timeframe that contain no underscore (as the three symbols
    and three timeframes of the page), the key of a message is the key of
    that symbol and timeframe exactly when the message's symbol, in lower
    case, and its timeframe are that symbol and that timeframe. *)
Theorem key_identifies_pair (m : Socket.Message) (symbol tf : string) :
  has_char underscore symbol = false ->
  has_char underscore tf = false ->
  key_of m = symbol +:+ "_" +:+ tf
  <-> toLowerCase (default "" (Socket.symbol m)) = symbol
      /\ default "undefined" (Socket.timeframe m) = tf.
Proof.
  intros Hs Ht. unfold key_of. split.
  - intros Hkey. by apply join_key_inj.
  - intros [-> ->]. reflexivity.
Qed.

Lemma key_identifies_pair_witness :
  toLowerCase (default "" (Socket.symbol LiveScoreSpec.same_instant)) = "btcusdt"
  /\ default "undefined" (Socket.timeframe LiveScoreSpec.same_instant) = "1m".
Proof.
  apply (key_identifies_pair LiveScoreSpec.same_instant "btcusdt" "1m");
    reflexivity.
Defined.

End LiveRunExtras.

(** ** What the z-score chart shows *)

Module AnalyticsChartsExtras.
Import AnalyticsLab AnalyticsCharts LiveRunSpec LiveScoreFacts LiveRunExtras.

(** X11.  The two threshold lines of a timeframe's z-score chart depend on
    the first symbol alone: with no point for btcusdt the chart gets the
    three symbol traces and no line, even when the other symbols have points;
    otherwise it gets both lines, drawn at +2 and -2 from btcusdt's oldest
    stored instant to its newest. *)
Theorem threshold_lines_follow_first_symbol (tf : string)
  (liveZScores : gmap string (list ScorePoint)) :
  let first := default [] (liveZScores !! ("btcusdt" +:+ "_" +:+ tf)) in
  (first = [] ->
     zScoreTraces tf liveZScores = symbol_trace tf liveZScores <$> SYMBOLS)
  /\ (forall oldest newest,
        head first = Some oldest -> last first = Some newest ->
        zScoreTraces tf liveZScores
        = (symbol_trace tf liveZScores <$> SYMBOLS)
          ++ [{| x := [timestamp oldest; timestamp newest];
                 y := [2%float; 2%float]; name := "+2σ" |};
              {| x := [timestamp oldest; timestamp newest];
                 y := [(-2)%float; (-2)%float]; name := "-2σ" |}]).
Proof.
  intros first.
  assert (Hx : x (symbol_trace tf liveZScores "btcusdt") = timestamp <$> first)
    by reflexivity.
  unfold zScoreTraces.
  change ((symbol_trace tf liveZScores <$> SYMBOLS) !! 0)
    with (Some (symbol_trace tf liveZScores "btcusdt")).
  cbv beta iota. rewrite Hx. clearbody first.
  split.
  - intros ->. reflexivity.
  - intros oldest newest Hhead Hlast.
    destruct first as [|p rest] eqn:Hfirst; [done|].
    rewrite <-Hfirst in *. unfold threshold_trace.
    assert (head (timestamp <$> first) = Some (timestamp oldest)) as ->.
    { rewrite Hfirst in *. simpl in *. by injection Hhead as ->. }
    rewrite fmap_last, Hlast. simpl.
    rewrite Hfirst. reflexivity.
Qed.

Lemma threshold_lines_follow_first_symbol_witness :
  zScoreTraces "1m" {[ "ethusdt_1m" := [LiveScoreSpec.first_point] ]}
  = symbol_trace "1m" {[ "ethusdt_1m" := [LiveScoreSpec.first_point] ]} <$> SYMBOLS.
Proof.
  apply (threshold_lines_follow_first_symbol "1m"
           {[ "ethusdt_1m" := [LiveScoreSpec.first_point] ]}).
  reflexivity.
Defined.






End AnalyticsChartsExtras.

(** ** More on the trade matcher *)

Module MatcherExtras.
Import Backtester MatcherSpec MatcherRunSpec MatcherFacts BacktestPage.

Lemma match_step_frame trades currentTrade s :
  match_step (trades, currentTrade) s
  = (trades ++ (match_step ([], currentTrade) s).1,
     (match_step ([], currentTrade) s).2).
Proof.
  unfold match_step.
  destruct (bool_decide (type s = "entry") && is_null currentTrade); simpl.
  { by rewrite app_nil_r. }
  destruct currentTrade as [open_trade|]; simpl; [|by rewrite app_nil_r].
  destruct (bool_decide (type s = "exit")); simpl; [done|by rewrite app_nil_r].
Qed.

Lemma match_loop_frame signalData trades currentTrade :
  fold_left match_step signalData (trades, currentTrade)
  = (trades ++ resume currentTrade signalData,
     (fold_left match_step signalData ([], currentTrade)).2).
Proof.
  unfold resume. revert trades currentTrade.
  induction signalData as [|s rest IH]; intros trades cur; cbn [fold_left].
  { simpl. by rewrite app_nil_r. }
  rewrite (match_step_frame trades cur s).
  destruct (match_step ([], cur) s) as [added cur'] eqn:Hstep. cbn [fst snd].
  rewrite (IH (trades ++ added)), (IH added). cbn [fst snd].
  by rewrite app_assoc.
Qed.

Lemma exit_leaves_none_open st s :
  type s = "exit" -> (match_step st s).2 = None.
Proof.
  intros Hs. destruct st as [trades [open_trade|]]; simpl.
  - rewrite andb_false_r. by rewrite bool_decide_eq_true_2.
  - rewrite bool_decide_eq_false_2; [done|]. by rewrite Hs.
Qed.

Lemma matchTrades_app first second :
  matchTrades (first ++ second)
  = matchTrades first ++ resume (open_after first) second.
Proof.
  unfold matchTrades, open_after. rewrite fold_left_app.
  destruct (fold_left match_step first ([], None)) as [trades cur]. simpl.
  by rewrite match_loop_frame.
Qed.

Lemma matchTrades_after_exit earlier s second :
  type s = "exit" ->
  matchTrades ((earlier ++ [s]) ++ second)
  = matchTrades (earlier ++ [s]) ++ matchTrades second.
Proof.
  intros Hs. rewrite matchTrades_app.
  assert (open_after (earlier ++ [s]) = None) as ->; [|done].
  unfold open_after. rewrite fold_left_app. simpl. by apply exit_leaves_none_open.
Qed.

(** X13.  Matching a list of signals in two parts gives the same trades as
    matching it whole, provided the second part starts from the trade the
    first part left open; when the first part ends with an exit signal
    nothing is left open, so the trades of the whole are the trades of the
    first part followed by the trades of the second. *)
Theorem matching_in_two_parts (first second : list Signal) :
  matchTrades (first ++ second)
    = matchTrades first ++ resume (open_after first) second
  /\ (open_after first = None ->
      matchTrades (first ++ second) = matchTrades first ++ matchTrades second)
  /\ (forall earlier s, first = earlier ++ [s] -> type s = "exit" ->
      matchTrades (first ++ second) = matchTrades first ++ matchTrades second).
Proof.
  split; [apply matchTrades_app|]. split.
  - intros Hopen. by rewrite matchTrades_app, Hopen.
  - intros earlier s -> Hs. by apply matchTrades_after_exit.
Qed.

Lemma matching_in_two_parts_witness :
  matchTrades ([signal "entry" 1 100; signal "exit" 2 110] ++ two_round_trips)
  = matchTrades [signal "entry" 1 100; signal "exit" 2 110]
    ++ matchTrades two_round_trips.
Proof.
  destruct (matching_in_two_parts [signal "entry" 1 100; signal "exit" 2 110]
              two_round_trips) as (_ & _ & H).
  apply (H [signal "entry" 1 100] (signal "exit" 2 110)); reflexivity.
Defined.

Lemma match_loop_counts signalData :
  let st := fold_left match_step signalData ([], None) in
  length st.1 + (if is_null st.2 then 0 else 1) <= length (entrySignals signalData)
  /\ length st.1 <= length (exitSignals signalData).
Proof.
  induction signalData as [|s seen IH] using rev_ind; [simpl; lia|].
  unfold entrySignals, exitSignals in *.
  rewrite fold_left_app, !List.filter_app, !length_app. simpl.
  destruct (fold_left match_step seen ([], None)) as [trades cur].
  simpl in IH. destruct IH as [IHe IHx]. unfold match_step.
  destruct (bool_decide (type s = "entry")) eqn:He.
  - apply bool_decide_eq_true in He.
    rewrite (bool_decide_eq_false_2 (type s = "exit")) by (by rewrite He).
    destruct cur; simpl in *; lia.
  - destruct cur as [open_trade|]; simpl in *.
    + destruct (bool_decide (type s = "exit")); simpl;
        rewrite ?length_app; simpl; lia.
    + destruct (bool_decide (type s = "exit")); simpl; lia.
Qed.

Lemma markers_disjoint signalData :
  length (entrySignals signalData) + length (exitSignals signalData)
  <= length signalData.
Proof.
  unfold entrySignals, exitSignals.
  induction signalData as [|s rest IH]; simpl; [lia|].
  destruct (bool_decide (type s = "entry")) eqn:He.
  - apply bool_decide_eq_true in He.
    rewrite (bool_decide_eq_false_2 (type s = "exit")) by (by rewrite He).
    simpl. lia.
  - destruct (bool_decide (type s = "exit")); simpl; lia.
Qed.

(** X14.  A trade uses up two signals: twice the number of trades is at
    most the number of signals.  When there are candles, [plotData] is the
    price line followed by the entry markers and the exit markers, and there
    are never more trades than entry markers or than exit markers; when
    there is no candle, [plotData] is empty and no marker is drawn, whatever
    the signals and the trades matched from them. *)
Theorem trades_bounded_by_markers (form_symbol : string)
  (priceSeries : list SeriesBuffer.Candle) (signalData : list Signal) :
  2 * length (matchTrades signalData) <= length signalData
  /\ (priceSeries = [] -> plotData form_symbol priceSeries signalData = [])
  /\ (priceSeries <> [] ->
      exists priceTrace entryTrace exitTrace,
        plotData form_symbol priceSeries signalData
        = [priceTrace; entryTrace; exitTrace]
        /\ length (AnalyticsCharts.x priceTrace) = length priceSeries
        /\ AnalyticsCharts.name entryTrace = "Entry"
        /\ AnalyticsCharts.name exitTrace = "Exit"
        /\ AnalyticsCharts.y entryTrace
           = price <$> List.filter (fun signal => bool_decide (type signal = "entry"))
                         signalData
        /\ AnalyticsCharts.y exitTrace
           = price <$> List.filter (fun signal => bool_decide (type signal = "exit"))
                         signalData
        /\ length (matchTrades signalData) <= length (AnalyticsCharts.x entryTrace)
        /\ length (matchTrades signalData) <= length (AnalyticsCharts.x exitTrace)).
Proof.
  pose proof (match_loop_counts signalData) as [He Hx].
  pose proof (markers_disjoint signalData).
  split; [unfold matchTrades; simpl in *; lia|].
  split; [by intros ->|].
  intros Hcandles. unfold plotData.
  rewrite decide_False by (by destruct priceSeries).
  do 3 eexists. split; [reflexivity|].
  cbn [AnalyticsCharts.x AnalyticsCharts.y AnalyticsCharts.name].
  rewrite !length_fmap.
  repeat split; unfold matchTrades; simpl in *; lia.
Qed.

Lemma foreign_signal_skipped st s :
  type s <> "entry" -> type s <> "exit" -> match_step st s = st.
Proof.
  intros He Hx. destruct st as [trades cur]. simpl.
  rewrite !bool_decide_eq_false_2 by done. simpl. by destruct cur.
Qed.

(** X15.  Signals whose type is neither ["entry"] nor ["exit"] have no part
    in the matching: leaving them out of the input gives the same trades. *)
Theorem foreign_signals_ignored (signalData : list Signal) :
  matchTrades
    (List.filter (fun s => bool_decide (type s = "entry")
                           || bool_decide (type s = "exit")) signalData)
  = matchTrades signalData.
Proof.
  unfold matchTrades. f_equal. generalize (@nil Trade, @None Trade).
  induction signalData as [|s rest IH]; intros st; simpl; [done|].
  destruct (bool_decide (type s = "entry")) eqn:He; simpl; [apply IH|].
  destruct (bool_decide (type s = "exit")) eqn:Hx; simpl; [apply IH|].
  apply bool_decide_eq_false in He, Hx.
  rewrite IH. by rewrite foreign_signal_skipped.
Qed.

(** X16.  Signals that come as round trips, an entry then its exit, are
    matched pair by pair: the trades are exactly those round trips, in
    order. *)
Theorem round_trips_recovered (pairs : list (Signal * Signal)) :
  Forall (fun p => type p.1 = "entry" /\ type p.2 = "exit") pairs ->
  matchTrades (round_trip_signals pairs) = trade_of <$> pairs.
Proof.
  induction 1 as [|[e x] pairs [He Hx] _ IH]; [done|].
  simpl in He, Hx.
  change (round_trip_signals ((e, x) :: pairs))
    with (([e] ++ [x]) ++ round_trip_signals pairs).
  rewrite (matchTrades_after_exit [e] x) by done. rewrite IH.
  assert (matchTrades ([e] ++ [x]) = [trade_of (e, x)]) as ->; [|done].
  unfold matchTrades. simpl.
  rewrite (bool_decide_eq_true_2 (type e = "entry")) by done. simpl.
  rewrite andb_false_r.
  by rewrite (bool_decide_eq_true_2 (type x = "exit")).
Qed.

Lemma round_trips_recovered_witness :
  matchTrades
    (round_trip_signals [(signal "entry" 1 100, signal "exit" 2 110);
                         (signal "entry" 3 90, signal "exit" 4 80)])
  = trade_of <$> [(signal "entry" 1 100, signal "exit" 2 110);
                  (signal "entry" 3 90, signal "exit" 4 80)].
Proof.
  apply (round_trips_recovered
           [(signal "entry" 1 100, signal "exit" 2 110);
            (signal "entry" 3 90, signal "exit" 4 80)]).
  repeat constructor.
Defined.

End MatcherExtras.

(** ** The backtest page and the drawdown over growing histories *)

Module PerformanceExtras.
Import Backtester PerformanceSpec MatcherFacts PerformanceFacts BacktestPage.
Local Open Scope float_scope.

(** X17.  After a backtest whose two requests succeeded: the metrics panel
    is rendered exactly when the matcher produced at least one trade;
    [metrics] is [null] exactly when there was no signal; the toast reports
    success with the number of signals when there is one at least and the
    absence of signals otherwise; no error is shown and loading is over. *)
Theorem panel_shows_matched_trades
  (response_candles : option (list SeriesBuffer.Candle))
  (response_signals : option (list Signal)) (st : Page) :
  let sigs := default [] response_signals in
  let st' := runBacktest (BothOk response_candles response_signals) st in
  (panel_visible st' = true <-> matchTrades sigs <> [])
  /\ (metrics st' = None <-> sigs = [])
  /\ toasts st'
     = toasts st ++ [match sigs with
                     | [] => ToastNoSignals
                     | _ => ToastSuccess (length sigs)
                     end]
  /\ error st' = None /\ loading st' = false
  /\ signals st' = sigs /\ priceSeries st' = default [] response_candles.
Proof.
  intros sigs st'. unfold st', runBacktest. fold sigs.
  destruct sigs as [|s rest] eqn:Hsigs.
  - change (calculateMetrics (default [] response_candles) [])
      with ReturnNull. unfold panel_visible. simpl.
    repeat split; try done; intros H; by destruct H.
  - rewrite <-Hsigs.
    destruct (calculateMetrics_Return (default [] response_candles) sigs)
      as (pnl & Hpnl & ->); [by rewrite Hsigs|].
    unfold panel_visible. cbn [metrics toasts error loading signals priceSeries].
    cbn [stats_of totalTrades].
    rewrite (returns_of_length _ _ Hpnl).
    split.
    { rewrite Nat.ltb_lt. destruct (matchTrades sigs); simpl; [split; [lia|done]|].
      split; [done|lia]. }
    rewrite Hsigs. repeat split; try done; intros ?; discriminate.
Qed.

(** *** The order of binary64 numbers *)

Lemma SFleb_trans (x y z : spec_float) :
  SFleb x y = true -> SFleb y z = true -> SFleb x z = true.
Proof.
  unfold SFleb, SFcompare.
  destruct x as [| [|] | | [|] m1 e1], y as [| [|] | | [|] m2 e2],
           z as [| [|] | | [|] m3 e3]; simpl; try done;
    change (Pos.compare_cont Eq) with Pos.compare;
    destruct (Z.compare_spec e1 e2), (Z.compare_spec e2 e3),
             (Z.compare_spec e1 e3); simpl; try done; try lia;
    destruct (Pos.compare_spec m1 m2), (Pos.compare_spec m2 m3),
             (Pos.compare_spec m1 m3); simpl; try done; try lia.
Qed.

Lemma SFleb_refl (x : spec_float) : x <> S754_nan -> SFleb x x = true.
Proof.
  unfold SFleb, SFcompare.
  destruct x as [| [|] | | [|] m e]; simpl; try done;
    change (Pos.compare_cont Eq) with Pos.compare;
    by rewrite Z.compare_refl, Pos.compare_refl.
Qed.

Lemma SFltb_leb (x y : spec_float) : SFltb x y = true -> SFleb x y = true.
Proof. unfold SFltb, SFleb. by destruct (SFcompare x y) as [[| |]|]. Qed.

Lemma leb_trans (a b c : float) :
  (a <=? b) = true -> (b <=? c) = true -> (a <=? c) = true.
Proof. rewrite !leb_spec. apply SFleb_trans. Qed.

Lemma ltb_leb (a b : float) : (a <? b) = true -> (a <=? b) = true.
Proof. rewrite ltb_spec, leb_spec. apply SFltb_leb. Qed.

Lemma nonneg_leb_refl (a : float) : (0 <=? a) = true -> (a <=? a) = true.
Proof.
  rewrite !leb_spec, Prim2SF_zero. intros Ha. apply SFleb_refl.
  intros Hnan. by rewrite Hnan in Ha.
Qed.

Lemma drawdown_loop_grows pnl peak maxDrawdown cumulative :
  (0 <=? maxDrawdown) = true ->
  (maxDrawdown
   <=? (fold_left drawdown_step pnl (peak, maxDrawdown, cumulative)).1.2) = true.
Proof.
  revert peak maxDrawdown cumulative.
  induction pnl as [|p rest IH]; intros peak md cum Hmd.
  { by apply nonneg_leb_refl. }
  cbn [fold_left drawdown_step].
  set (cum' := cum + p).
  set (peak' := if peak <? cum' then cum' else peak).
  destruct (md <? peak' - cum') eqn:Hlt.
  - eapply leb_trans; [by apply ltb_leb|].
    apply IH. by eapply nonneg_lt_nonneg.
  - by apply IH.
Qed.

(** X18.  Further trades never lower the maximum drawdown: the drawdown of
    a history is at most the drawdown of any history that continues it. *)
Theorem maxDrawdown_never_shrinks (tradePnL further : list float) :
  (maxDrawdown_of tradePnL <=? maxDrawdown_of (tradePnL ++ further)) = true.
Proof.
  pose proof (maxDrawdown_of_nonneg tradePnL) as Hnonneg.
  unfold maxDrawdown_of in *. rewrite fold_left_app.
  destruct (fold_left drawdown_step tradePnL (neg_infinity, 0, 0))
    as [[peak md] cum].
  by apply drawdown_loop_grows.
Qed.

End PerformanceExtras.

(** ** The periodic price fetch *)

Module AnalyticsFetchExtras.
Import SeriesBuffer AnalyticsCharts AnalyticsFetch.

Lemma newPrices_lookup (respond : string -> string -> PriceResponse)
  (symbol tf : string) :
  symbol ∈ SYMBOLS -> tf ∈ TIMEFRAMES ->
  newPrices respond !! (symbol +:+ "_" +:+ tf)
  = Some (price_data_of (respond symbol tf)).
Proof.
  intros Hsym Htf. unfold SYMBOLS, TIMEFRAMES in *.
  repeat (apply elem_of_cons in Hsym as [->|Hsym]);
    [| | |by apply elem_of_nil in Hsym];
    (repeat (apply elem_of_cons in Htf as [->|Htf]);
     [| | |by apply elem_of_nil in Htf]);
    unfold newPrices; simpl;
    repeat (rewrite lookup_insert_ne by done); by rewrite lookup_insert_eq.
Qed.

(** X20.  After [fetchAllData], each of the nine (symbol, timeframe) pairs
    has its own entry in [priceData], holding the candles of the response to
    that pair's request and nothing when the request failed.  The price
    chart of a timeframe is redrawn only when the response for the first
    symbol, btcusdt, holds a candle: then each of its three lines plots the
    instants and closes of its own pair's response, an empty line for a
    failed request; otherwise [Plotly.react] is not called, even when the
    other two symbols have candles. *)
Theorem price_trace_shows_own_response
  (respond : string -> string -> PriceResponse) (tf : string) :
  tf ∈ TIMEFRAMES ->
  let candles_of := fun symbol => price_data_of (respond symbol tf) in
  let line := fun symbol label =>
    {| x := timestamp <$> candles_of symbol;
       y := close <$> candles_of symbol;
       name := label |} in
  (forall symbol, symbol ∈ SYMBOLS ->
     newPrices respond !! (symbol +:+ "_" +:+ tf) = Some (candles_of symbol))
  /\ (candles_of "btcusdt" = [] ->
      price_chart_update tf (newPrices respond) = None)
  /\ (candles_of "btcusdt" <> [] ->
      price_chart_update tf (newPrices respond)
      = Some [line "btcusdt" "BTC"; line "ethusdt" "ETH"; line "bnbusdt" "BNB"]).
Proof.
  intros Htf candles_of line.
  assert (Hlookup : forall symbol, symbol ∈ SYMBOLS ->
            newPrices respond !! (symbol +:+ "_" +:+ tf) = Some (candles_of symbol)).
  { intros symbol Hsym. by apply newPrices_lookup. }
  assert (Htrace : forall symbol, symbol ∈ SYMBOLS ->
            price_trace tf (newPrices respond) symbol
            = line symbol (toUpperCase (replace_first "usdt" "" symbol))).
  { intros symbol Hsym. unfold price_trace. by rewrite (Hlookup symbol Hsym). }
  assert (Htraces : priceTraces tf (newPrices respond)
                    = [line "btcusdt" "BTC"; line "ethusdt" "ETH"; line "bnbusdt" "BNB"]).
  { unfold priceTraces, SYMBOLS. cbn [fmap list_fmap].
    rewrite !Htrace; [reflexivity|unfold SYMBOLS..].
    - do 2 (apply elem_of_cons; right). apply elem_of_cons. by left.
    - apply elem_of_cons. right. apply elem_of_cons. by left.
    - apply elem_of_cons. by left. }
  split; [exact Hlookup|].
  unfold price_chart_update. rewrite Htraces.
  cbn [lookup list_lookup].
  assert (Hx : length (x (line "btcusdt" "BTC")) = length (candles_of "btcusdt")).
  { unfold line. cbn [x]. apply length_fmap. }
  rewrite Hx. clearbody line. split.
  - intros ->. reflexivity.
  - intros Hcandles. by destruct (candles_of "btcusdt").
Qed.

Lemma price_trace_shows_own_response_witness :
  price_chart_update "5m"
    (newPrices (fun symbol tf =>
                  if decide (symbol = "ethusdt") then PriceFailed
                  else PriceOk (Some [BufferSpec.candle_at 300])))
  = Some [ {| x := [300%Z]; y := [0%float]; name := "BTC" |};
           {| x := []; y := []; name := "ETH" |};
           {| x := [300%Z]; y := [0%float]; name := "BNB" |} ].
Proof.
  destruct (price_trace_shows_own_response
              (fun symbol tf =>
                 if decide (symbol = "ethusdt") then PriceFailed
                 else PriceOk (Some [BufferSpec.candle_at 300])) "5m") as (_ & _ & H).
  - unfold TIMEFRAMES. do 2 (apply elem_of_cons; right). apply elem_of_cons. by left.
  - apply H. discriminate.
Defined.

End AnalyticsFetchExtras.
